(** * pinhead-analytics: the contact-form submission path

    A shallow embedding of [src/pages/api/contact.ts] (the [POST] handler of
    [/api/contact]) and of [src/components/react/ContactForm.tsx] (the form
    component's state), with the properties the specification states about
    them.

    The handler is JavaScript: what it does with a body depends on the
    language's coercions ([!x], property access, [RegExp.prototype.test] on a
    value that need not be a string), so the first modules model the part of
    ECMAScript the handler touches. *)

From Stdlib Require Import List NArith ZArith Bool String Ascii Lia.
From Stdlib Require Import Floats.SpecFloat.
Import ListNotations.

Set Implicit Arguments.

(* ===================================================================== *)
(** * JavaScript values                                                    *)
(* ===================================================================== *)

Module JS.

(** A JavaScript string is a sequence of UTF-16 code units. *)
Definition code_unit := N.
Definition js_string := list code_unit.

(** An ASCII literal as a JavaScript string. *)
Definition str (s : string) : js_string :=
  map N_of_ascii (list_ascii_of_string s).

(** A number is an IEEE 754 double: a zero or an infinity of either sign,
    NaN, or a sign, a mantissa and a binary exponent. *)
Definition number := spec_float.

(** The values [request.json()] can resolve to, and [undefined], which a
    property read yields for a missing property.  An object keeps its own
    properties in insertion order, each key once. *)
#[local] Unset Elimination Schemes.
Inductive value : Type :=
| VUndefined
| VNull
| VBool (b : bool)
| VNumber (x : number)
| VString (s : js_string)
| VArray (elems : list value)
| VObject (props : list (js_string * value)).
#[local] Set Elimination Schemes.

(** What a [throw] carries. *)
Inductive error : Type :=
| TypeError
| SyntaxError
| HostError (name : js_string).

(** The outcome of evaluating an expression: a value or a thrown error. *)
Inductive completion (A : Type) : Type :=
| Normal (a : A)
| Throw (e : error).
Arguments Normal {A} a.
Arguments Throw {A} e.

Definition code_unit_eqb (a b : code_unit) : bool := N.eqb a b.

Fixpoint string_eqb (a b : js_string) : bool :=
  match a, b with
  | [], [] => true
  | x :: a', y :: b' => code_unit_eqb x y && string_eqb a' b'
  | _, _ => false
  end.

(** The own property [key] of an object, if it has one. *)
Fixpoint own_property (props : list (js_string * value)) (key : js_string)
  : option value :=
  match props with
  | [] => None
  | (k, v) :: rest =>
      if string_eqb k key then Some v else own_property rest key
  end.

(** [v.key], for a [key] that no built-in prototype defines and that is
    neither an index nor [length] (the handler reads [email] and [message]
    only): reading a property of [null] or [undefined] throws a TypeError; an
    object yields its own property or [undefined]; a boolean, a number, a
    string and an array have no such property. *)
Definition Get (v : value) (key : js_string) : completion value :=
  match v with
  | VUndefined | VNull => Throw TypeError
  | VObject props =>
      match own_property props key with
      | Some x => Normal x
      | None => Normal VUndefined
      end
  | VBool _ | VNumber _ | VString _ | VArray _ => Normal VUndefined
  end.

(** ToBoolean: [undefined], [null], [false], [+0], [-0], [NaN] and the empty
    string are falsy; everything else, every array and object included, is
    truthy. *)
Definition ToBoolean (v : value) : bool :=
  match v with
  | VUndefined | VNull => false
  | VBool b => b
  | VNumber x =>
      match x with
      | S754_zero _ | S754_nan => false
      | S754_infinity _ | S754_finite _ _ _ => true
      end
  | VString s => match s with [] => false | _ :: _ => true end
  | VArray _ | VObject _ => true
  end.

(** [a || b] *)
Definition logical_or (a b : value) : value :=
  if ToBoolean a then a else b.

Section Coercion.

(** Number::toString, the decimal form the engine prints a double in.  It is
    the engine's; nothing below depends on which strings it produces. *)
Variable Number_toString : number -> js_string.

(** ToString.  An array prints as its elements joined by commas, [null] and
    [undefined] elements as nothing.  An object parsed from JSON has no
    callable property of its own: without an own [toString] it inherits
    Object.prototype.toString and prints as [[object Object]]; with one,
    OrdinaryToPrimitive finds [toString] not callable, [valueOf] either not
    callable or returning the object itself, and throws a TypeError. *)
Fixpoint ToString (v : value) : completion js_string :=
  match v with
  | VUndefined => Normal (str "undefined")
  | VNull => Normal (str "null")
  | VBool true => Normal (str "true")
  | VBool false => Normal (str "false")
  | VNumber x => Normal (Number_toString x)
  | VString s => Normal s
  | VArray elems =>
      let element (e : value) : completion js_string :=
        match e with
        | VUndefined | VNull => Normal []
        | _ => ToString e
        end in
      (fix join (l : list value) : completion js_string :=
         match l with
         | [] => Normal []
         | [e] => element e
         | e :: rest =>
             match element e with
             | Throw err => Throw err
             | Normal a =>
                 match join rest with
                 | Throw err => Throw err
                 | Normal b => Normal (a ++ str "," ++ b)
                 end
             end
         end) elems
  | VObject props =>
      match own_property props (str "toString") with
      | Some _ => Throw TypeError
      | None => Normal (str "[object Object]")
      end
  end.

End Coercion.

End JS.

(* ===================================================================== *)
(** * Regular expressions                                                  *)
(* ===================================================================== *)

(** The backtracking matcher of ECMAScript (ECMA-262, RegExp pattern
    semantics), for the constructs the handler's pattern uses, without
    flags: a pattern compiles to a matcher taking a state and a
    continuation. *)
Module RegExp.
Import JS.

(** [\s]: WhiteSpace and LineTerminator code points. *)
Definition is_white_space (c : code_unit) : bool :=
  ((9 <=? c) && (c <=? 13) || (c =? 32) || (c =? 160) || (c =? 5760)
   || (8192 <=? c) && (c <=? 8202) || (c =? 8232) || (c =? 8233)
   || (c =? 8239) || (c =? 8287) || (c =? 12288) || (c =? 65279))%N.

Inductive class_atom : Type :=
| ClassChar (c : code_unit)      (* a literal character *)
| ClassWhiteSpace.               (* \s *)

Definition class_atom_mem (ch : code_unit) (a : class_atom) : bool :=
  match a with
  | ClassChar c => code_unit_eqb ch c
  | ClassWhiteSpace => is_white_space ch
  end.

Inductive pattern : Type :=
| AssertStart                                         (* ^ *)
| AssertEnd                                           (* $ *)
| Char (c : code_unit)                                (* a literal or escaped character *)
| CharClass (invert : bool) (atoms : list class_atom) (* [...] and [^...] *)
| Seq (a b : pattern)
| Repeat (a : pattern) (min : nat).                   (* greedy a{min,}: a* is 0, a+ is 1 *)

(** A match state: [endIndex] characters of the input are consumed and
    [rest] is what follows them. *)
Record MatchState : Type := { endIndex : nat; rest : js_string }.

Definition MatchResult := option MatchState.
Definition Continuation := MatchState -> MatchResult.
Definition Matcher := MatchState -> Continuation -> MatchResult.

Definition succeeded (r : MatchResult) : bool :=
  match r with Some _ => true | None => false end.

(** Whether a character set with membership [mem], inverted or not, lets
    [ch] through. *)
Definition accepts (mem : code_unit -> bool) (invert : bool)
  (ch : code_unit) : bool :=
  negb (Bool.eqb (mem ch) invert).

(** CharacterSetMatcher: fail at the end of the input, and when membership
    of the next character equals [invert]; otherwise step over it. *)
Definition CharacterSetMatcher (mem : code_unit -> bool) (invert : bool)
  : Matcher :=
  fun x c =>
    match rest x with
    | [] => None
    | ch :: t =>
        if Bool.eqb (mem ch) invert then None
        else c {| endIndex := S (endIndex x); rest := t |}
    end.

(** RepeatMatcher with no upper bound, greedy.  An iteration that matches
    the empty string once [min] is reached is rejected, so every further
    iteration consumes input; [fuel] bounds the iterations. *)
Fixpoint RepeatMatcher (fuel : nat) (m : Matcher) (min : nat)
  (x : MatchState) (c : Continuation) : MatchResult :=
  match fuel with
  | O => None
  | S fuel' =>
      let d : Continuation := fun y =>
        if (min =? 0)%nat && (endIndex y =? endIndex x)%nat then None
        else RepeatMatcher fuel' m (pred min) y c in
      if (min =? 0)%nat then
        match m x d with
        | Some z => Some z
        | None => c x
        end
      else m x d
  end.

Fixpoint CompileSubpattern (p : pattern) : Matcher :=
  match p with
  | AssertStart => fun x c => if (endIndex x =? 0)%nat then c x else None
  | AssertEnd => fun x c => match rest x with [] => c x | _ :: _ => None end
  | Char ch => CharacterSetMatcher (fun c => code_unit_eqb c ch) false
  | CharClass invert atoms =>
      CharacterSetMatcher (fun c => existsb (class_atom_mem c) atoms) invert
  | Seq a b =>
      fun x c => CompileSubpattern a x (fun y => CompileSubpattern b y c)
  | Repeat a min =>
      fun x c =>
        RepeatMatcher (S (min + List.length (rest x))) (CompileSubpattern a)
          min x c
  end.

(** RegExpBuiltinExec for a pattern that is neither global nor sticky, as
    [test] uses it: try the match at index 0, then at each later index. *)
Fixpoint search (m : Matcher) (index : nat) (s : js_string) : bool :=
  match m {| endIndex := index; rest := s |} (fun y => Some y) with
  | Some _ => true
  | None =>
      match s with
      | [] => false
      | _ :: t => search m (S index) t
      end
  end.

Definition exec (p : pattern) (s : js_string) : bool :=
  search (CompileSubpattern p) 0 s.

(** [p.test(v)]: the argument is converted with ToString first. *)
Definition test (Number_toString : number -> js_string) (p : pattern)
  (v : value) : completion bool :=
  match ToString Number_toString v with
  | Throw e => Throw e
  | Normal s => Normal (exec p s)
  end.

End RegExp.

(* ===================================================================== *)
(** * JSON.stringify                                                       *)
(* ===================================================================== *)

Module JSON.
Import JS.

Definition hex_digit (d : N) : code_unit :=
  (if d <? 10 then 48 + d else 87 + d)%N.

(** [\uXXXX], in lower-case hexadecimal. *)
Definition UnicodeEscape (c : code_unit) : js_string :=
  str "\u" ++ [hex_digit ((c / 4096) mod 16); hex_digit ((c / 256) mod 16);
               hex_digit ((c / 16) mod 16); hex_digit (c mod 16)]%N.

Definition is_leading_surrogate (c : code_unit) : bool :=
  ((55296 <=? c) && (c <=? 56319))%N.
Definition is_trailing_surrogate (c : code_unit) : bool :=
  ((56320 <=? c) && (c <=? 57343))%N.

(** One code unit that is not a surrogate, as QuoteJSONString writes it. *)
Definition quote_code_unit (c : code_unit) : js_string :=
  (if c =? 8 then str "\b"
   else if c =? 9 then str "\t"
   else if c =? 10 then str "\n"
   else if c =? 12 then str "\f"
   else if c =? 13 then str "\r"
   else if c =? 34 then [92; 34]
   else if c =? 92 then [92; 92]
   else if c <? 32 then UnicodeEscape c
   else [c])%N.

Fixpoint quote_code_units (s : js_string) : js_string :=
  match s with
  | [] => []
  | c :: t =>
      if is_leading_surrogate c then
        match t with
        | c' :: t' =>
            if is_trailing_surrogate c' then c :: c' :: quote_code_units t'
            else UnicodeEscape c ++ quote_code_units t
        | [] => UnicodeEscape c
        end
      else if is_trailing_surrogate c then
        UnicodeEscape c ++ quote_code_units t
      else quote_code_unit c ++ quote_code_units t
  end.

Definition QuoteJSONString (s : js_string) : js_string :=
  [34%N] ++ quote_code_units s ++ [34%N].

Fixpoint join (sep : js_string) (parts : list js_string) : js_string :=
  match parts with
  | [] => []
  | [p] => p
  | p :: rest => p ++ sep ++ join sep rest
  end.

Section Stringify.

Variable Number_toString : number -> js_string.

(** SerializeJSONProperty, without replacer or indentation, on values that
    have no callable [toJSON] and on objects none of whose keys is an array
    index (those would be enumerated first): [None] stands for [undefined],
    which an object skips and an array writes as [null]. *)
Fixpoint SerializeJSONProperty (v : value) : option js_string :=
  match v with
  | VUndefined => None
  | VNull => Some (str "null")
  | VBool true => Some (str "true")
  | VBool false => Some (str "false")
  | VNumber x =>
      Some (match x with
            | S754_zero _ | S754_finite _ _ _ => Number_toString x
            | S754_infinity _ | S754_nan => str "null"
            end)
  | VString s => Some (QuoteJSONString s)
  | VArray elems =>
      Some (str "[" ++
            join (str ",")
              (map (fun e => match SerializeJSONProperty e with
                             | Some t => t
                             | None => str "null"
                             end) elems) ++
            str "]")
  | VObject props =>
      Some (str "{" ++
            join (str ",")
              ((fix members (l : list (js_string * value))
                  : list js_string :=
                  match l with
                  | [] => []
                  | (k, x) :: rest =>
                      match SerializeJSONProperty x with
                      | Some t =>
                          (QuoteJSONString k ++ str ":" ++ t) :: members rest
                      | None => members rest
                      end
                  end) props) ++
            str "}")
  end.

Definition stringify (v : value) : option js_string :=
  SerializeJSONProperty v.

End Stringify.

End JSON.

(* ===================================================================== *)
(** * The endpoint: src/pages/api/contact.ts                               *)
(* ===================================================================== *)

Module Contact.
Import JS.

(** ** What the handler runs in *)

(** A line written to the console. *)
Inductive console_line : Type :=
| Log (label : js_string) (email message : value) (timestamp : Z)
    (* console.log(label, { email, message, timestamp }); the timestamp is
       kept as the time value that toISOString prints *)
| Error (label : js_string) (e : error).
    (* console.error(label, error) *)

(** The world a request is handled in: the clock (milliseconds since the
    epoch) and what has been written to the console so far, latest first.
    The module has no variable of its own. *)
Record World : Type := { clock : Z; console : list console_line }.

(** Computations that read and write the world and may throw. *)
Definition M (A : Type) : Type := World -> completion A * World.

Definition ret {A} (a : A) : M A := fun w => (Normal a, w).

Definition bind {A B} (m : M A) (k : A -> M B) : M B :=
  fun w =>
    match m w with
    | (Normal a, w') => k a w'
    | (Throw e, w') => (Throw e, w')
    end.

Definition lift {A} (c : completion A) : M A := fun w => (c, w).

(** [try { body } catch (error) { handler }] *)
Definition try_catch {A} (body : M A) (handler : error -> M A) : M A :=
  fun w =>
    match body w with
    | (Normal a, w') => (Normal a, w')
    | (Throw e, w') => handler e w'
    end.

Notation "x <- m ;; k" := (bind m (fun x => k))
  (at level 61, m at next level, right associativity).
Notation "m ;;; k" := (bind m (fun _ => k))
  (at level 61, right associativity).

(** The time value of [new Date()]. *)
Definition Date_now : M Z := fun w => (Normal (clock w), w).

Definition write (l : console_line) : M unit :=
  fun w => (Normal tt, {| clock := clock w; console := l :: console w |}).

(** ** Requests and responses *)

(** A request, as far as the handler looks at it: what [await
    request.json()] yields, the parsed body or the rejection (a body that is
    not JSON, a body that cannot be read). *)
Record Request : Type := { json : completion value }.

Record Response : Type :=
  { body : option js_string;
    status : Z;
    headers : list (js_string * js_string) }.

(** [new Response(body, { status, headers })] *)
Definition new_Response (b : option js_string) (st : Z)
  (h : list (js_string * js_string)) : Response :=
  {| body := b; status := st; headers := h |}.

Section Handler.

Variable Number_toString : number -> js_string.

Definition JSON_stringify := JSON.stringify Number_toString.

(** /^[^\s@]+@[^\s@]+\.[^\s@]+$/ *)
Definition emailRegex : RegExp.pattern :=
  let not_space_or_at :=
    RegExp.CharClass true [RegExp.ClassWhiteSpace; RegExp.ClassChar 64%N] in
  RegExp.Seq RegExp.AssertStart
    (RegExp.Seq (RegExp.Repeat not_space_or_at 1)
       (RegExp.Seq (RegExp.Char 64%N)
          (RegExp.Seq (RegExp.Repeat not_space_or_at 1)
             (RegExp.Seq (RegExp.Char 46%N)
                (RegExp.Seq (RegExp.Repeat not_space_or_at 1)
                   RegExp.AssertEnd))))).

(** The shape the specification gives the pattern in words: a local part,
    [@], a domain, [.] and a top-level part, each of them non-empty and free
    of white space and of [@]. *)
Definition address_char (c : code_unit) : bool :=
  negb (RegExp.is_white_space c || code_unit_eqb c 64%N).

Definition local_at_domain_dot_tld (s : js_string) : Prop :=
  exists local domain tld,
    s = local ++ [64%N] ++ domain ++ [46%N] ++ tld /\
    local <> [] /\ domain <> [] /\ tld <> [] /\
    forallb address_char local = true /\
    forallb address_char domain = true /\
    forallb address_char tld = true.

Definition json_headers : list (js_string * js_string) :=
  [(str "Content-Type", str "application/json")].

Definition error_object (message : string) : value :=
  VObject [(str "error", VString (str message))].

Definition success_object : value :=
  VObject [(str "success", VBool true);
           (str "message",
            VString (str "Thank you for your interest! We will get back to you soon."))].

(** The body of the [try] block. *)
Definition POST_try (request : Request) : M Response :=
  data <- lift (json request) ;;
  email <- lift (Get data (str "email")) ;;
  if negb (ToBoolean email) then
    ret (new_Response (JSON_stringify (error_object "Email address is required"))
           400 json_headers)
  else
    matched <- lift (RegExp.test Number_toString emailRegex email) ;;
    if negb matched then
      ret (new_Response
             (JSON_stringify (error_object "Please enter a valid email address"))
             400 json_headers)
    else
      logged_email <- lift (Get data (str "email")) ;;
      message <- lift (Get data (str "message")) ;;
      now <- Date_now ;;
      write (Log (str "Contact form submission:") logged_email
               (logical_or message (VString (str "No message provided"))) now) ;;;
      ret (new_Response (JSON_stringify success_object) 200 json_headers).

(** [export const POST: APIRoute = async ({ request }) => { try ... catch ... }] *)
Definition POST (request : Request) : M Response :=
  try_catch (POST_try request)
    (fun error =>
       write (Error (str "Contact form error:") error) ;;;
       ret (new_Response (JSON_stringify (error_object "Internal server error"))
              500 json_headers)).

(** The three responses the handler builds. *)
Definition rejection (message : string) : Response :=
  new_Response (JSON_stringify (error_object message)) 400 json_headers.
Definition acknowledgement : Response :=
  new_Response (JSON_stringify success_object) 200 json_headers.
Definition internal_error : Response :=
  new_Response (JSON_stringify (error_object "Internal server error"))
    500 json_headers.

End Handler.

(** A request whose body parsed to [data]. *)
Definition request_with (data : value) : Request := {| json := Normal data |}.

(** The body [{ "email": email }], and the same with a message. *)
Definition only_email (email : value) : value :=
  VObject [(str "email", email)].
Definition email_and_message (email message : value) : value :=
  VObject [(str "email", email); (str "message", message)].

(** A parsed body has no email field: it is an object without that
    property, or no object at all. *)
Definition email_absent (data : value) : bool :=
  match data with
  | VObject props =>
      match own_property props (str "email") with
      | Some _ => false
      | None => true
      end
  | _ => true
  end.

(** A printer and a world to run the handler in on examples.  No example
    gets as far as printing a number, so they run the same with any
    printer. *)
Definition example_printer : number -> js_string := fun _ => str "0".
Definition example_world : World := {| clock := 1700000000000; console := [] |}.

End Contact.

(* ===================================================================== *)
(** * The client: src/components/react/ContactForm.tsx                     *)
(* ===================================================================== *)

Module ContactForm.
Import JS.

Record FormData : Type := { email : js_string; message : js_string }.

(** The four [useState] cells of the component. *)
Record State : Type :=
  { formData : FormData;
    isSubmitting : bool;
    isSubmitted : bool;
    error : js_string }.

Definition setFormData (f : FormData -> FormData) (s : State) : State :=
  {| formData := f (formData s); isSubmitting := isSubmitting s;
     isSubmitted := isSubmitted s; error := error s |}.
Definition setIsSubmitting (b : bool) (s : State) : State :=
  {| formData := formData s; isSubmitting := b;
     isSubmitted := isSubmitted s; error := error s |}.
Definition setIsSubmitted (b : bool) (s : State) : State :=
  {| formData := formData s; isSubmitting := isSubmitting s;
     isSubmitted := b; error := error s |}.
Definition setError (e : js_string) (s : State) : State :=
  {| formData := formData s; isSubmitting := isSubmitting s;
     isSubmitted := isSubmitted s; error := e |}.

(** The state of the first render. *)
Definition initial : State :=
  {| formData := {| email := []; message := [] |};
     isSubmitting := false; isSubmitted := false; error := [] |}.

(** The [name] of the element a change event comes from: the email input or
    the message textarea. *)
Inductive field : Type := Email | Message.

(** [setFormData(prev => ({ ...prev, [e.target.name]: e.target.value }))] *)
Definition handleChange (name : field) (v : js_string) (s : State) : State :=
  setFormData
    (fun prev =>
       match name with
       | Email => {| email := v; message := message prev |}
       | Message => {| email := email prev; message := v |}
       end) s.

(** How [await fetch(...)] ends: with a response of some status, or
    rejected (the network failed). *)
Inductive fetch_outcome : Type :=
| Resolved (response_status : Z)
| Rejected.

(** [response.ok]: the status is in the range 200-299. *)
Definition ok (response_status : Z) : bool :=
  ((200 <=? response_status) && (response_status <=? 299))%Z.

(** [handleSubmit] up to its [await]. *)
Definition handleSubmit_start (s : State) : State :=
  setError [] (setIsSubmitting true s).

(** [handleSubmit] from the [await] on: the [try] body sets [isSubmitted]
    on an ok response and throws otherwise; [catch] sets the error message;
    [finally] clears [isSubmitting]. *)
Definition handleSubmit_settle (o : fetch_outcome) (s : State) : State :=
  let caught :=
    setError (str "Something went wrong. Please try again or email us directly.") s in
  let after_try :=
    match o with
    | Resolved response_status =>
        if ok response_status then setIsSubmitted true s else caught
    | Rejected => caught
    end in
  setIsSubmitting false after_try.

(** The [onClick] of the 'Send Another Message' button. *)
Definition reset (s : State) : State :=
  setFormData (fun _ => {| email := []; message := [] |})
    (setIsSubmitted false s).

(** What the component renders, as far as behaviour goes: the thank-you
    card with its reset button, or the form with its two controlled fields,
    the error banner when [error] is not empty, and a submit button that is
    disabled and reads 'Sending...' while [isSubmitting]. *)
Inductive View : Type :=
| ThankYou
| Form (email_value message_value : js_string) (banner : option js_string)
    (submit_disabled : bool) (submit_label : js_string).

Definition render (s : State) : View :=
  if isSubmitted s then ThankYou
  else
    Form (email (formData s)) (message (formData s))
      (match error s with [] => None | _ :: _ => Some (error s) end)
      (isSubmitting s)
      (if isSubmitting s then str "Sending..." else str "Send Message").

(** The states the specification names, read off what is rendered; [failed]
    is the one it calls error. *)
Inductive phase : Type := idle | submitting | submitted | failed.

Definition phase_of (s : State) : phase :=
  match render s with
  | ThankYou => submitted
  | Form _ _ banner submit_disabled _ =>
      if submit_disabled then submitting
      else match banner with Some _ => failed | None => idle end
  end.

(** ** What the browser asks of the email field *)

(** The email input is [type="email"] and [required], and the form does not
    say [noValidate]: before the submit event is fired, the browser checks
    the field and fires none if the value is empty or is not a valid email
    address.  HTML defines that by the grammar
    [1*( atext / "." ) "@" label *( "." label )], a label being 1 to 63
    letters, digits and hyphens that neither starts nor ends with a
    hyphen. *)
Definition is_let_dig (c : code_unit) : bool :=
  ((48 <=? c) && (c <=? 57) || (65 <=? c) && (c <=? 90)
   || (97 <=? c) && (c <=? 122))%N.

(** atext of RFC 5322: letters, digits and
    ! # $ % & ' * + - / = ? ^ _ ` { | } ~ *)
Definition is_atext (c : code_unit) : bool :=
  is_let_dig c ||
  existsb (code_unit_eqb c)
    [33; 35; 36; 37; 38; 39; 42; 43; 45; 47; 61; 63; 94; 95; 96; 123; 124;
     125; 126]%N.

(** The pieces of [s] between the occurrences of [sep]. *)
Fixpoint split_on (sep : code_unit) (s : js_string) : list js_string :=
  match s with
  | [] => [[]]
  | c :: t =>
      if code_unit_eqb c sep then [] :: split_on sep t
      else
        match split_on sep t with
        | piece :: pieces => (c :: piece) :: pieces
        | [] => [[c]]
        end
  end.

Definition valid_label (l : js_string) : bool :=
  match l, rev l with
  | first :: _, last :: _ =>
      (List.length l <=? 63) && is_let_dig first && is_let_dig last
      && forallb (fun c => is_let_dig c || code_unit_eqb c 45%N) l
  | _, _ => false
  end.

Definition valid_email_address (s : js_string) : bool :=
  match split_on 64%N s with
  | [local; domain] =>
      match local with
      | [] => false
      | _ :: _ =>
          forallb (fun c => is_atext c || code_unit_eqb c 46%N) local
          && forallb valid_label (split_on 46%N domain)
      end
  | _ => false
  end.

(** The field passes if its value is not missing ([required]) and is no
    type mismatch ([type="email"]).  The value is the one rendered into the
    field, which is the [e.target.value] of the last change. *)
Definition email_field_valid (v : js_string) : bool :=
  match v with
  | [] => false
  | _ :: _ => valid_email_address v
  end.

(** ** The component as a transition system *)

(** Besides the state cells, the requests whose [handleSubmit] is suspended
    at its [await]. *)
Record Config : Type := { ui : State; in_flight : nat }.

Inductive event : Type :=
| Change (name : field) (v : js_string)   (* the user edits a field *)
| Submit                                  (* the user submits the form *)
| Settle (o : fetch_outcome)              (* a pending fetch ends *)
| Reset.                                  (* the user clicks the reset button *)

(** An event happens only where the rendered view offers it: fields and
    submit button exist in the form view only, a disabled submit button
    submits nothing (nor does the Enter key while the form's only submit
    button is disabled), the reset button exists in the thank-you view only;
    a fetch can end only while one is pending.  [Submit] is the form's
    submit event, the one [handleSubmit] is bound to: the browser fires it
    only if the email field, with the value rendered into it, passes its
    check. *)
Definition step (c : Config) (e : event) : option Config :=
  match e, render (ui c) with
  | Change name v, Form _ _ _ _ _ =>
      Some {| ui := handleChange name v (ui c); in_flight := in_flight c |}
  | Submit, Form email_value _ _ false _ =>
      if email_field_valid email_value
      then Some {| ui := handleSubmit_start (ui c);
                   in_flight := S (in_flight c) |}
      else None
  | Settle o, _ =>
      match in_flight c with
      | O => None
      | S n => Some {| ui := handleSubmit_settle o (ui c); in_flight := n |}
      end
  | Reset, ThankYou =>
      Some {| ui := reset (ui c); in_flight := in_flight c |}
  | _, _ => None
  end.

Inductive reachable : Config -> Prop :=
| reachable_initial : reachable {| ui := initial; in_flight := 0 |}
| reachable_step c e c' :
    reachable c -> step c e = Some c' -> reachable c'.

(** The events of a session, one after the other. *)
Fixpoint run (c : Config) (es : list event) : option Config :=
  match es with
  | [] => Some c
  | e :: es' =>
      match step c e with
      | Some c' => run c' es'
      | None => None
      end
  end.

(** The error state is an idle state with a banner: the form is shown and
    can be submitted. *)
Definition idle_like (p : phase) : Prop := p = idle \/ p = failed.

(** The transitions of the specification's state machine, event by event:
    what an event requires of the state before and makes of the state
    after.  Editing a field is no transition. *)
Definition transition (s : State) (e : event) (s' : State) : Prop :=
  match e with
  | Change _ _ => phase_of s' = phase_of s
  | Submit =>
      idle_like (phase_of s) /\ phase_of s' = submitting /\
      formData s' = formData s
  | Settle o =>
      phase_of s = submitting /\
      match o with
      | Resolved response_status =>
          if ok response_status then phase_of s' = submitted
          else phase_of s' = failed /\ formData s' = formData s
      | Rejected => phase_of s' = failed /\ formData s' = formData s
      end
  | Reset =>
      phase_of s = submitted /\ phase_of s' = idle /\
      formData s' = {| email := []; message := [] |}
  end.

(** What holds of the state cells in every reachable configuration: one
    request is pending while [isSubmitting] and none otherwise; while one is
    pending, and in the thank-you view, no error is set; the two flags are
    never set together. *)
Definition consistent (c : Config) : Prop :=
  in_flight c = (if isSubmitting (ui c) then 1 else 0) /\
  (isSubmitting (ui c) = true ->
   isSubmitted (ui c) = false /\ error (ui c) = []) /\
  (isSubmitted (ui c) = true -> error (ui c) = []).

(** A session that ends in the submitted state: both fields filled in, the
    form submitted, the response ok. *)
Definition successful_session : list event :=
  [Change Email (str "test@example.com"); Change Message (str "Hello");
   Submit; Settle (Resolved 200)].

Definition after_success : Config :=
  {| ui :=
       {| formData :=
            {| email := str "test@example.com"; message := str "Hello" |};
          isSubmitting := false; isSubmitted := true; error := [] |};
     in_flight := 0 |}.

(** The same session before the fetch has ended, and after it has ended
    with a response that is not ok. *)
Definition pending : Config :=
  {| ui :=
       {| formData :=
            {| email := str "test@example.com"; message := str "Hello" |};
          isSubmitting := true; isSubmitted := false; error := [] |};
     in_flight := 1 |}.

Definition after_failure : Config :=
  {| ui :=
       {| formData :=
            {| email := str "test@example.com"; message := str "Hello" |};
          isSubmitting := false; isSubmitted := false;
          error :=
            str "Something went wrong. Please try again or email us directly." |};
     in_flight := 0 |}.

(** The form filled in and not yet submitted. *)
Definition ready : Config :=
  {| ui :=
       {| formData :=
            {| email := str "test@example.com"; message := str "Hello" |};
          isSubmitting := false; isSubmitted := false; error := [] |};
     in_flight := 0 |}.

End ContactForm.

(* ===================================================================== *)
(** * The client against the endpoint                                      *)
(* ===================================================================== *)

Module Submission.
Import JS.

(** What the endpoint reads of the body [JSON.stringify(formData)]: an
    object with the two fields, both strings (parsing JSON text gives back
    the strings it was written from). *)
Definition body_of (f : ContactForm.FormData) : value :=
  VObject [(str "email", VString (ContactForm.email f));
           (str "message", VString (ContactForm.message f))].

(** [await fetch('/api/contact', { method: 'POST', ..., body })] when the
    network delivers: the endpoint handles the body in its world, and the
    fetch resolves with the status of the response. *)
Definition delivered (Number_toString : number -> js_string)
  (f : ContactForm.FormData) (w : Contact.World)
  (o : ContactForm.fetch_outcome) (w' : Contact.World) : Prop :=
  exists r,
    Contact.POST Number_toString (Contact.request_with (body_of f)) w =
      (Normal r, w') /\
    o = ContactForm.Resolved (Contact.status r).

(** The one message the form ever sets as its error. *)
Definition generic_error : js_string :=
  str "Something went wrong. Please try again or email us directly.".

(** A form filled in and not yet submitted, and the world of the examples
    after the endpoint has logged that submission. *)
Definition filled_in : ContactForm.Config :=
  {| ContactForm.ui :=
       {| ContactForm.formData :=
            {| ContactForm.email := str "test@example.com";
               ContactForm.message := str "Hello" |};
          ContactForm.isSubmitting := false;
          ContactForm.isSubmitted := false;
          ContactForm.error := [] |};
     ContactForm.in_flight := 0 |}.

(** The same with an address the browser lets through and the endpoint's
    pattern does not: it has no dot after the [@]. *)
Definition filled_in_local : ContactForm.Config :=
  {| ContactForm.ui :=
       {| ContactForm.formData :=
            {| ContactForm.email := str "user@localhost";
               ContactForm.message := str "Hello" |};
          ContactForm.isSubmitting := false;
          ContactForm.isSubmitted := false;
          ContactForm.error := [] |};
     ContactForm.in_flight := 0 |}.

Definition logged_world : Contact.World :=
  {| Contact.clock := Contact.clock Contact.example_world;
     Contact.console :=
       [Contact.Log (str "Contact form submission:")
          (VString (str "test@example.com")) (VString (str "Hello"))
          (Contact.clock Contact.example_world)] |}.

End Submission.

(* ===================================================================== *)
(** * The hero carousel (src/unnamed/part_006)                             *)
(* ===================================================================== *)

Module HeroCarousel.
Import JS.

Record Service : Type :=
  { title : js_string;
    subtitle : js_string;
    description : js_string;
    icon : js_string;
    color : js_string;
    gradient : js_string }.

Definition services : list Service :=
  [
  {| title := str "GenAI & LLM Solutions";
     subtitle := str "Leading the AI Revolution";
     description :=
       str "Transform your business with cutting-edge generative AI and large language models that understand, create, and innovate at scale.";
     icon := [55358; 56598]%N;
     color := str "from-blue-600 to-purple-600";
     gradient := str "from-blue-50 to-purple-50" |};
  {| title := str "Multi-Agent Applications";
     subtitle := str "Collaborative AI Ecosystems";
     description :=
       str "Build sophisticated AI systems where multiple intelligent agents work together to solve complex business challenges autonomously.";
     icon := [55357; 56599]%N;
     color := str "from-purple-600 to-pink-600";
     gradient := str "from-purple-50 to-pink-50" |};
  {| title := str "MCP Server Development";
     subtitle := str "Secure AI Integration";
     description :=
       str "Develop robust Model Context Protocol servers that enable seamless and secure integration between AI models and your systems.";
     icon := [55357; 57057; 65039]%N;
     color := str "from-pink-600 to-red-600";
     gradient := str "from-pink-50 to-red-50" |};
  {| title := str "LLMOps & MLOps";
     subtitle := str "Production AI Excellence";
     description :=
       str "Operationalize your AI models with enterprise-grade practices ensuring reliability, scalability, and continuous improvement.";
     icon := [9881; 65039]%N;
     color := str "from-red-600 to-orange-600";
     gradient := str "from-red-50 to-orange-50" |};
  {| title := str "Machine Learning & AI";
     subtitle := str "Intelligent Automation";
     description :=
       str "Comprehensive ML solutions from traditional algorithms to deep learning that drive predictive insights and automation.";
     icon := [55358; 56800]%N;
     color := str "from-orange-600 to-yellow-600";
     gradient := str "from-orange-50 to-yellow-50" |};
  {| title := str "Data Science";
     subtitle := str "Data-Driven Insights";
     description :=
       str "Extract actionable insights through advanced statistical analysis and scientific methodology that powers strategic decisions.";
     icon := [55357; 56522]%N;
     color := str "from-yellow-600 to-green-600";
     gradient := str "from-yellow-50 to-green-50" |};
  {| title := str "Data Engineering";
     subtitle := str "Robust Data Infrastructure";
     description :=
       str "Build scalable data pipelines and infrastructure that powers your AI initiatives with clean, accessible, and reliable data.";
     icon := [55356; 57303; 65039]%N;
     color := str "from-green-600 to-teal-600";
     gradient := str "from-green-50 to-teal-50" |};
  {| title := str "Business Analytics";
     subtitle := str "Strategic Intelligence";
     description :=
       str "Transform business data into actionable insights through comprehensive analytics solutions and interactive dashboards.";
     icon := [55357; 56520]%N;
     color := str "from-teal-600 to-cyan-600";
     gradient := str "from-teal-50 to-cyan-50" |};
  {| title := str "AI Strategy & Roadmapping";
     subtitle := str "Strategic Transformation";
     description :=
       str "Develop comprehensive AI strategies aligned with your business objectives and create actionable roadmaps for success.";
     icon := [55357; 56826; 65039]%N;
     color := str "from-cyan-600 to-blue-600";
     gradient := str "from-cyan-50 to-blue-50" |}
  ].

(** The two [useState] cells; the index is a small whole number. *)
Record State : Type := { currentIndex : nat; isPlaying : bool }.

Definition initial : State := {| currentIndex := 0; isPlaying := true |}.

(** The interval's callback:
    [setCurrentIndex((prev) => (prev + 1) % services.length)]. *)
Definition advance (s : State) : State :=
  {| currentIndex := (currentIndex s + 1) mod List.length services;
     isPlaying := isPlaying s |}.

(** The [onClick] of the dot of slide [index], up to its [setTimeout]. *)
Definition select (index : nat) (s : State) : State :=
  {| currentIndex := index; isPlaying := false |}.

(** The timeout's callback: [setIsPlaying(true)]. *)
Definition resume (s : State) : State :=
  {| currentIndex := currentIndex s; isPlaying := true |}.

(** [services[currentIndex]]; [None] is [undefined]. *)
Definition currentService (s : State) : option Service :=
  nth_error services (currentIndex s).

(** Besides the state cells, the resume timers that are set and have not
    fired yet (none is ever cleared). *)
Record Config : Type := { ui : State; timeouts : nat }.

Inductive event : Type :=
| Tick                  (* the 4 s interval fires *)
| Click (index : nat)   (* the user clicks a dot *)
| Timeout.              (* a 5 s resume timer fires *)

(** The effect installs the interval only while [isPlaying] and clears it
    when [isPlaying] changes; there is one dot per service, so a click
    carries the index of a service; a timer fires only if one is pending. *)
Definition step (c : Config) (e : event) : option Config :=
  match e with
  | Tick =>
      if isPlaying (ui c)
      then Some {| ui := advance (ui c); timeouts := timeouts c |}
      else None
  | Click index =>
      if index <? List.length services
      then Some {| ui := select index (ui c); timeouts := S (timeouts c) |}
      else None
  | Timeout =>
      match timeouts c with
      | O => None
      | S n => Some {| ui := resume (ui c); timeouts := n |}
      end
  end.

Fixpoint run (c : Config) (es : list event) : option Config :=
  match es with
  | [] => Some c
  | e :: es' =>
      match step c e with
      | Some c' => run c' es'
      | None => None
      end
  end.

Inductive reachable : Config -> Prop :=
| reachable_initial : reachable {| ui := initial; timeouts := 0 |}
| reachable_step c e c' :
    reachable c -> step c e = Some c' -> reachable c'.

(** The clicks among the events of a session, and the timers that fired. *)
Fixpoint count_clicks (es : list event) : nat :=
  match es with
  | [] => 0
  | Click _ :: es' => S (count_clicks es')
  | _ :: es' => count_clicks es'
  end.

Fixpoint count_timeouts (es : list event) : nat :=
  match es with
  | [] => 0
  | Timeout :: es' => S (count_timeouts es')
  | _ :: es' => count_timeouts es'
  end.

(** The carousel after a click on the fourth dot. *)
Definition paused_on_fourth : Config :=
  {| ui := {| currentIndex := 3; isPlaying := false |}; timeouts := 1 |}.

End HeroCarousel.

(* ===================================================================== *)
(** * The lint configuration's globals (src/unnamed/part_000)              *)
(* ===================================================================== *)

Module EslintConfig.
Import JS.

Definition object := list (js_string * value).

Fixpoint drop_while (p : code_unit -> bool) (s : js_string) : js_string :=
  match s with
  | [] => []
  | c :: t => if p c then drop_while p t else s
  end.

(** String.prototype.trim: white space and line terminators, the code
    points of [\s], are removed from both ends. *)
Definition trimStart (s : js_string) : js_string :=
  drop_while RegExp.is_white_space s.
Definition trimEnd (s : js_string) : js_string :=
  rev (drop_while RegExp.is_white_space (rev s)).
Definition trim (s : js_string) : js_string := trimEnd (trimStart s).

(** CreateDataProperty: an existing property keeps its place and takes the
    new value; a new one goes last. *)
Fixpoint set_property (o : object) (key : js_string) (v : value) : object :=
  match o with
  | [] => [(key, v)]
  | (k, x) :: rest =>
      if string_eqb k key then (k, v) :: rest
      else (k, x) :: set_property rest key v
  end.

(** Object.entries and Object.fromEntries, for keys that are not array
    indices. *)
Definition entries (o : object) : list (js_string * value) := o.

Definition fromEntries (es : list (js_string * value)) : object :=
  fold_left (fun o kv => set_property o (fst kv) (snd kv)) es [].

(** [Object.fromEntries(Object.entries(globals.browser).map(([key, value])
    => [key.trim(), value]))], for whatever the [globals] package exports
    as [browser]. *)
Definition trimmedGlobals (browser : object) : object :=
  fromEntries (map (fun kv => (trim (fst kv), snd kv)) (entries browser)).

(** [{ ...trimmedGlobals, ...globals.node }] *)
Definition languageOptions_globals (browser node : object) : object :=
  fromEntries (entries (trimmedGlobals browser) ++ entries node).

(** The value of the last entry whose key satisfies [p]. *)
Fixpoint last_value (p : js_string -> bool) (es : list (js_string * value))
  : option value :=
  match es with
  | [] => None
  | (k, v) :: rest =>
      match last_value p rest with
      | Some x => Some x
      | None => if p k then Some v else None
      end
  end.

(** Browser globals in which one name carries a trailing space, as in the
    release of the [globals] package that the workaround is for; the same
    without it; and a few globals of Node. *)
Definition example_browser : object :=
  [(str "window", VBool false);
   (str "AudioWorkletGlobalScope ", VBool false);
   (str "console", VBool false)].

Definition clean_browser : object :=
  [(str "window", VBool false);
   (str "AudioWorkletGlobalScope", VBool false);
   (str "console", VBool false)].

Definition example_node : object :=
  [(str "process", VBool false); (str "console", VBool true)].

End EslintConfig.

(* ===================================================================== *)
(** * The matcher on the handler's pattern                                 *)
(* ===================================================================== *)

Module RegExpFacts.
Import JS RegExp Contact.

Lemma CharacterSetMatcher_cons mem invert i ch t c :
  CharacterSetMatcher mem invert {| endIndex := i; rest := ch :: t |} c =
  if accepts mem invert ch then c {| endIndex := S i; rest := t |} else None.
Proof.
  unfold CharacterSetMatcher, accepts; simpl.
  destruct (Bool.eqb (mem ch) invert); reflexivity.
Qed.

Ltac index_norm :=
  cbn [List.length Nat.add app forallb] in *;
  rewrite ?Nat.add_succ_r, ?Nat.add_0_r in *.

(** With more fuel than [min] plus the length of the input, repeating a
    character set succeeds exactly when some prefix of the input, of at
    least [min] characters all in the set, leaves the continuation a rest it
    accepts. *)
Lemma RepeatMatcher_class mem invert c :
  forall s fuel min i,
    min + List.length s < fuel ->
    succeeded (RepeatMatcher fuel (CharacterSetMatcher mem invert) min
                 {| endIndex := i; rest := s |} c) = true <->
    exists a b, s = a ++ b /\ min <= List.length a /\
                forallb (accepts mem invert) a = true /\
                succeeded (c {| endIndex := i + List.length a; rest := b |}) = true.
Proof.
  induction s as [|ch t IH]; intros fuel min i Hfuel.
  - destruct fuel as [|fuel]; [lia|].
    destruct min as [|min]; simpl; split.
    + intros H. exists [], []. index_norm. auto.
    + intros (a & b & Hs & _ & _ & H).
      symmetry in Hs. apply app_eq_nil in Hs as [-> ->]. index_norm. exact H.
    + discriminate.
    + intros (a & b & Hs & Hlen & _).
      symmetry in Hs. apply app_eq_nil in Hs as [-> ->]. simpl in Hlen. lia.
  - destruct fuel as [|fuel]; [lia|]. simpl in Hfuel.
    cbn [RepeatMatcher]. rewrite CharacterSetMatcher_cons.
    assert (Hne : (S i =? i)%nat = false) by (apply Nat.eqb_neq; lia).
    destruct min as [|min]; cbn [pred endIndex];
      [change (0 =? 0)%nat with true | change (S min =? 0)%nat with false];
      cbn [andb]; rewrite ?Hne.
    + specialize (IH fuel 0 (S i) ltac:(lia)).
      destruct (accepts mem invert ch) eqn:Hch.
      * destruct (RepeatMatcher fuel (CharacterSetMatcher mem invert) 0
                    {| endIndex := S i; rest := t |} c) eqn:Hrec.
        -- split; [intros _|reflexivity].
           destruct IH as [IH _]. destruct (IH eq_refl) as (a & b & -> & _ & Ha & Hc).
           exists (ch :: a), b. index_norm. rewrite Hch, Ha.
           repeat split; auto; lia.
        -- split.
           ++ intros H. exists [], (ch :: t). index_norm. auto using Nat.le_0_l.
           ++ intros (a & b & Hs & _ & Ha & Hc). destruct a as [|x a]; index_norm.
              ** subst b. exact Hc.
              ** injection Hs as <- ->. 
                 apply andb_true_iff in Ha as [_ Ha].
                 destruct IH as [_ IH]. 
                 assert (false = true); [|discriminate].
                 apply IH. exists a, b. index_norm. repeat split; auto; lia.
      * split.
        -- intros H. exists [], (ch :: t). index_norm. auto using Nat.le_0_l.
        -- intros (a & b & Hs & _ & Ha & Hc). destruct a as [|x a]; index_norm.
           ++ subst b. exact Hc.
           ++ injection Hs as <- ->. rewrite Hch in Ha. discriminate.
    + destruct (accepts mem invert ch) eqn:Hch.
      * specialize (IH fuel min (S i) ltac:(lia)). rewrite IH. split.
        -- intros (a & b & -> & Hlen & Ha & Hc).
           exists (ch :: a), b. index_norm. rewrite Hch, Ha.
           repeat split; auto; lia.
        -- intros (a & b & Hs & Hlen & Ha & Hc).
           destruct a as [|x a]; index_norm; [lia|].
           injection Hs as <- ->.
           apply andb_true_iff in Ha as [_ Ha].
           exists a, b. index_norm. repeat split; auto; lia.
      * split; [discriminate|].
        intros (a & b & Hs & Hlen & Ha & Hc).
        destruct a as [|x a]; index_norm; [lia|].
        injection Hs as <- ->. rewrite Hch in Ha. discriminate.
Qed.

(** A pattern that starts with [^] matches at index 0 or nowhere. *)
Lemma search_anchored p :
  forall s i, search (CompileSubpattern (Seq AssertStart p)) (S i) s = false.
Proof.
  induction s as [|ch t IH]; intros i; simpl; auto.
Qed.

Lemma exec_anchored p s :
  exec (Seq AssertStart p) s =
  succeeded (CompileSubpattern p {| endIndex := 0; rest := s |} (fun y => Some y)).
Proof.
  unfold exec. destruct s as [|ch t]; simpl.
  - destruct (CompileSubpattern p _ _); reflexivity.
  - destruct (CompileSubpattern p _ _); [reflexivity|].
    apply (search_anchored p t 0).
Qed.

(** One literal character, then [q]. *)
Lemma Seq_Char_spec k q i s c :
  succeeded (CompileSubpattern (Seq (Char k) q) {| endIndex := i; rest := s |} c) = true <->
  exists t, s = k :: t /\
            succeeded (CompileSubpattern q {| endIndex := S i; rest := t |} c) = true.
Proof.
  cbn [CompileSubpattern]. destruct s as [|ch t].
  - unfold CharacterSetMatcher; simpl. split; [discriminate|]. intros (t & Ht & _). discriminate.
  - rewrite CharacterSetMatcher_cons. unfold accepts, code_unit_eqb.
    destruct (N.eqb_spec ch k) as [->|Hne]; simpl.
    + split; [intros H; exists t; auto|]. intros (t' & Ht & H). injection Ht as <-. exact H.
    + split; [discriminate|]. intros (t' & Ht & _). congruence.
Qed.

(** A greedy repetition of a character class, then [q]: some prefix of at
    least [min] characters of the class, and [q] on what follows it.  The
    matcher's fuel is enough to find it. *)
Lemma Seq_Repeat_class_spec invert atoms min q i s c :
  succeeded (CompileSubpattern (Seq (Repeat (CharClass invert atoms) min) q)
               {| endIndex := i; rest := s |} c) = true <->
  exists a b, s = a ++ b /\ min <= List.length a /\
    forallb (accepts (fun ch => existsb (class_atom_mem ch) atoms) invert) a = true /\
    succeeded (CompileSubpattern q {| endIndex := i + List.length a; rest := b |} c) = true.
Proof.
  cbn [CompileSubpattern rest]. apply RepeatMatcher_class. lia.
Qed.

Lemma AssertEnd_spec i s :
  succeeded (CompileSubpattern AssertEnd {| endIndex := i; rest := s |} (fun y => Some y)) = true
  <-> s = [].
Proof.
  destruct s; simpl; split; congruence.
Qed.

Lemma accepts_address_char ch :
  accepts (fun c => existsb (class_atom_mem c) [ClassWhiteSpace; ClassChar 64%N]) true ch
  = address_char ch.
Proof.
  unfold accepts, address_char; simpl. rewrite orb_false_r.
  destruct (is_white_space ch || code_unit_eqb ch 64%N); reflexivity.
Qed.

Lemma forallb_accepts_address_char a :
  forallb (accepts (fun c => existsb (class_atom_mem c) [ClassWhiteSpace; ClassChar 64%N]) true) a
  = forallb address_char a.
Proof.
  induction a as [|x a IH]; cbn [forallb]; [reflexivity|].
  rewrite IH, accepts_address_char. reflexivity.
Qed.

Lemma one_le_length {A} (l : list A) : 1 <= List.length l <-> l <> [].
Proof. destruct l; simpl; split; try congruence; try lia. Qed.

(** The handler's pattern accepts exactly the strings of the shape
    local@domain.tld. *)
Lemma emailRegex_exec_spec s :
  exec emailRegex s = true <-> local_at_domain_dot_tld s.
Proof.
  unfold emailRegex. rewrite exec_anchored, Seq_Repeat_class_spec.
  unfold local_at_domain_dot_tld. split.
  - intros (a & r1 & -> & Ha & Hfa & H).
    apply Seq_Char_spec in H as (r2 & -> & H).
    apply Seq_Repeat_class_spec in H as (b & r3 & -> & Hb & Hfb & H).
    apply Seq_Char_spec in H as (r4 & -> & H).
    apply Seq_Repeat_class_spec in H as (c & r5 & -> & Hc & Hfc & H).
    apply AssertEnd_spec in H as ->.
    rewrite forallb_accepts_address_char in Hfa, Hfb, Hfc.
    exists a, b, c. rewrite app_nil_r.
    repeat split; auto; apply one_le_length; assumption.
  - intros (a & b & c & -> & Ha & Hb & Hc & Hfa & Hfb & Hfc).
    exists a, ([64%N] ++ b ++ [46%N] ++ c).
    rewrite forallb_accepts_address_char.
    split; [reflexivity|]. split; [apply one_le_length; assumption|].
    split; [assumption|].
    apply Seq_Char_spec. exists (b ++ [46%N] ++ c). split; [reflexivity|].
    apply Seq_Repeat_class_spec. exists b, ([46%N] ++ c).
    rewrite forallb_accepts_address_char.
    split; [reflexivity|]. split; [apply one_le_length; assumption|].
    split; [assumption|].
    apply Seq_Char_spec. exists c. split; [reflexivity|].
    apply Seq_Repeat_class_spec. exists c, [].
    rewrite forallb_accepts_address_char, app_nil_r.
    split; [reflexivity|]. split; [apply one_le_length; assumption|].
    split; [assumption|].
    apply AssertEnd_spec. reflexivity.
Qed.

(** The matcher on a few addresses: dots may repeat after the [@]; a space,
    a no-break space, a second [@], an empty part or a missing dot make it
    fail. *)
Example emailRegex_examples :
  exec emailRegex (str "test@example.com") = true /\
  exec emailRegex (str "a@b.c") = true /\
  exec emailRegex (str "first.last@mail.example.co.uk") = true /\
  exec emailRegex (str "a@b..c") = true /\
  exec emailRegex (str "a b@c.d") = false /\
  exec emailRegex (str "a" ++ [160%N] ++ str "@c.d") = false /\
  exec emailRegex (str "a@b@c.d") = false /\
  exec emailRegex (str "@b.c") = false /\
  exec emailRegex (str "a@.c") = false /\
  exec emailRegex (str "a@b.") = false /\
  exec emailRegex (str "a@b") = false /\
  exec emailRegex (str "notanemail") = false.
Proof. repeat split. Qed.

End RegExpFacts.

(* ===================================================================== *)
(** * The endpoint's properties                                            *)
(* ===================================================================== *)

Module ContactFacts.
Import JS Contact.

Ltac run_handler :=
  unfold POST, try_catch, POST_try, bind, lift, ret, write, Date_now,
    RegExp.test.

(** Closes a branch of the handler that ends in one of the error responses. *)
Ltac answered_with_error :=
  do 2 eexists; split; [reflexivity|]; split; [reflexivity|];
  right; split; [first [left; reflexivity | right; reflexivity]
                | eexists; reflexivity].

Lemma exec_emailRegex_empty : RegExp.exec emailRegex [] = false.
Proof. reflexivity. Qed.

Lemma matching_is_truthy s :
  RegExp.exec emailRegex s = true -> ToBoolean (VString s) = true.
Proof.
  destruct s; [rewrite exec_emailRegex_empty; discriminate | reflexivity].
Qed.

(** A value one property of which can be read lets every property be read. *)
Lemma Get_total data key v key' :
  Get data key = Normal v -> exists v', Get data key' = Normal v'.
Proof.
  destruct data; simpl; try discriminate; intros _; eauto.
  destruct (own_property props key'); eauto.
Qed.

Section Properties.

Variable Number_toString : number -> js_string.

(** What the handler does with an email that is a string. *)
Lemma POST_string_email request data s w :
  json request = Normal data ->
  Get data (str "email") = Normal (VString s) ->
  POST Number_toString request w =
  match s with
  | [] =>
      (Normal (rejection Number_toString "Email address is required"), w)
  | _ :: _ =>
      if RegExp.exec emailRegex s then
        match Get data (str "message") with
        | Normal message =>
            (Normal (acknowledgement Number_toString),
             {| clock := clock w;
                console :=
                  Log (str "Contact form submission:") (VString s)
                    (logical_or message (VString (str "No message provided")))
                    (clock w) :: console w |})
        | Throw e =>
            (Normal (internal_error Number_toString),
             {| clock := clock w;
                console := Error (str "Contact form error:") e :: console w |})
        end
      else
        (Normal (rejection Number_toString "Please enter a valid email address"),
         w)
  end.
Proof.
  intros Hjson Hemail. run_handler. rewrite Hjson, Hemail.
  destruct s as [|c s]; [reflexivity|].
  cbn [ToBoolean negb ToString].
  destruct (RegExp.exec emailRegex (c :: s)); cbn [negb]; [|reflexivity].
  destruct (Get data (str "message")); reflexivity.
Qed.

(** The status of the answer to a string email. *)
Lemma string_email_status request data s w :
  json request = Normal data ->
  Get data (str "email") = Normal (VString s) ->
  exists r w',
    POST Number_toString request w = (Normal r, w') /\
    status r = if RegExp.exec emailRegex s then 200%Z else 400%Z.
Proof.
  intros Hjson Hemail.
  rewrite (POST_string_email request w Hjson Hemail).
  destruct s as [|c s]; [do 2 eexists; split; reflexivity|].
  destruct (RegExp.exec emailRegex (c :: s)).
  - destruct (@Get_total data (str "email") _ (str "message") Hemail)
      as (m & ->).
    do 2 eexists; split; reflexivity.
  - do 2 eexists; split; reflexivity.
Qed.

(** X3. A string email is accepted exactly when it has the shape
    local@domain.tld: status 200 if it has, status 400 if it has not. *)
Lemma string_email_accepted_iff_shaped request data s w :
  json request = Normal data ->
  Get data (str "email") = Normal (VString s) ->
  exists r w',
    POST Number_toString request w = (Normal r, w') /\
    (status r = 200%Z <-> local_at_domain_dot_tld s) /\
    (status r = 400%Z <-> ~ local_at_domain_dot_tld s).
Proof.
  intros Hjson Hemail.
  destruct (string_email_status request w Hjson Hemail) as (r & w' & Hrun & Hst).
  exists r, w'. split; [exact Hrun|].
  rewrite <- RegExpFacts.emailRegex_exec_spec, Hst.
  destruct (RegExp.exec emailRegex s); split; split;
    try discriminate; try reflexivity; try congruence.
Qed.

(** C1. A body whose email is a string that does not match the pattern is
    answered with status 400 and a JSON error body: the empty string with
    the message of a missing email, any other string with the message of a
    malformed one; nothing is logged. *)
Theorem malformed_email_400 request data s w :
  json request = Normal data ->
  Get data (str "email") = Normal (VString s) ->
  RegExp.exec emailRegex s = false ->
  exists message,
    POST Number_toString request w =
    (Normal (new_Response
               (JSON_stringify Number_toString
                  (VObject [(str "error", VString (str message))]))
               400 json_headers), w).
Proof.
  intros Hjson Hemail Hno.
  rewrite (POST_string_email request w Hjson Hemail).
  destruct s as [|c s].
  - exists "Email address is required"%string. reflexivity.
  - exists "Please enter a valid email address"%string.
    rewrite Hno. reflexivity.
Qed.

(** C2. A body whose email is a string that matches the pattern is answered
    with status 200 and the JSON body of an object with [success: true] and
    the acknowledgement message. *)
Theorem valid_email_200 request data s w :
  json request = Normal data ->
  Get data (str "email") = Normal (VString s) ->
  RegExp.exec emailRegex s = true ->
  exists w',
    POST Number_toString request w =
    (Normal (new_Response
               (JSON_stringify Number_toString
                  (VObject
                     [(str "success", VBool true);
                      (str "message",
                       VString (str "Thank you for your interest! We will get back to you soon."))]))
               200 json_headers), w').
Proof.
  intros Hjson Hemail Hyes.
  rewrite (POST_string_email request w Hjson Hemail), Hyes.
  destruct s as [|c s]; [discriminate|].
  destruct (@Get_total data (str "email") _ (str "message") Hemail) as (m & ->).
  eexists. reflexivity.
Qed.

(** C3, as the code has it.  A parsed body other than [null] that has no
    email field (an object without the property, or a boolean, a number, a
    string or an array) is answered with status 400 and the JSON error body
    of a missing email.  ([request.json()] resolves to a JSON value, never
    to [undefined].) *)
Theorem absent_email_400_unless_null request data w :
  json request = Normal data ->
  data <> VUndefined ->
  data <> VNull ->
  email_absent data = true ->
  POST Number_toString request w =
  (Normal (new_Response
             (JSON_stringify Number_toString
                (VObject [(str "error", VString (str "Email address is required"))]))
             400 json_headers), w).
Proof.
  intros Hjson Hdefined Hnull Habsent. run_handler. rewrite Hjson.
  destruct data as [| |b|x|s|elems|props]; try contradiction;
    try reflexivity.
  cbn [email_absent] in Habsent. cbn [Get].
  destruct (own_property props (str "email")); [discriminate|reflexivity].
Qed.

(** C4. When the body of the [try] block throws, whatever the error and
    wherever it comes from, the handler returns normally: status 500, the
    JSON body of [{ error: 'Internal server error' }], the error written to
    the console. *)
Theorem unexpected_exception_500 request w e w' :
  POST_try Number_toString request w = (Throw e, w') ->
  POST Number_toString request w =
  (Normal (new_Response
             (JSON_stringify Number_toString
                (VObject [(str "error", VString (str "Internal server error"))]))
             500 json_headers),
   {| clock := clock w';
      console := Error (str "Contact form error:") e :: console w' |}).
Proof.
  intros Hthrow. unfold POST, try_catch. rewrite Hthrow. reflexivity.
Qed.

(** The places an error can come from: the body cannot be parsed, ... *)
Lemma POST_try_unparseable request w e :
  json request = Throw e -> POST_try Number_toString request w = (Throw e, w).
Proof. intros H. run_handler. rewrite H. reflexivity. Qed.

(** ... the body is [null], which has no properties to read, ... *)
Lemma POST_try_null w :
  POST_try Number_toString (request_with VNull) w = (Throw TypeError, w).
Proof. reflexivity. Qed.

(** ... or the email is an object that cannot be converted to a string. *)
Lemma POST_try_unprintable_email w :
  POST_try Number_toString
    (request_with
       (VObject [(str "email", VObject [(str "toString", VNull)])])) w
  = (Throw TypeError, w).
Proof. reflexivity. Qed.

(** The response never depends on the world the request is handled in: not
    on the clock, and not on what earlier requests left in the console,
    which is all they leave. *)
Lemma POST_response_stateless request w1 w2 :
  fst (POST Number_toString request w1) = fst (POST Number_toString request w2).
Proof.
  run_handler. destruct (json request) as [data|e]; [|reflexivity].
  destruct (Get data (str "email")) as [email|e]; [|reflexivity].
  destruct (negb (ToBoolean email)); [reflexivity|].
  destruct (ToString Number_toString email) as [s|e]; [|reflexivity].
  destruct (negb (RegExp.exec emailRegex s)); [reflexivity|].
  destruct (Get data (str "message")) as [message|e]; reflexivity.
Qed.

(** C7. The same valid payload submitted twice, the second time in the
    world the first left behind: both get the same response, status 200;
    both are logged, one console line each (nothing is deduplicated); and
    the response is the same in every other world too, whatever the clock
    shows and whatever earlier requests wrote. *)
Theorem resubmission_independent request data s w :
  json request = Normal data ->
  Get data (str "email") = Normal (VString s) ->
  RegExp.exec emailRegex s = true ->
  exists r w1 w2,
    POST Number_toString request w = (Normal r, w1) /\
    POST Number_toString request w1 = (Normal r, w2) /\
    status r = 200%Z /\
    List.length (console w1) = S (List.length (console w)) /\
    List.length (console w2) = S (List.length (console w1)) /\
    forall w3, fst (POST Number_toString request w3) = Normal r.
Proof.
  intros Hjson Hemail Hyes.
  assert (Hrun : forall w0, exists w0',
             POST Number_toString request w0 =
               (Normal (acknowledgement Number_toString), w0') /\
             List.length (console w0') = S (List.length (console w0))).
  { intros w0. rewrite (POST_string_email request w0 Hjson Hemail), Hyes.
    destruct s as [|c s]; [discriminate|].
    destruct (@Get_total data (str "email") _ (str "message") Hemail)
      as (m & ->).
    eexists. split; reflexivity. }
  destruct (Hrun w) as (w1 & H1 & L1). destruct (Hrun w1) as (w2 & H2 & L2).
  exists (acknowledgement Number_toString), w1, w2.
  repeat split; try assumption.
  intros w3. destruct (Hrun w3) as (w3' & H3 & _). rewrite H3. reflexivity.
Qed.

(** C8. Two bodies with the same valid email get the same response, status
    200, whatever message each carries or lacks and in whatever world each
    is handled; and a message that is a non-empty string reaches the log as
    it came, whatever its length and content. *)
Theorem message_does_not_influence_response
  request request' data data' s w w' :
  json request = Normal data ->
  json request' = Normal data' ->
  Get data (str "email") = Normal (VString s) ->
  Get data' (str "email") = Normal (VString s) ->
  RegExp.exec emailRegex s = true ->
  exists r,
    fst (POST Number_toString request w) = Normal r /\
    fst (POST Number_toString request' w') = Normal r /\
    status r = 200%Z /\
    forall c m,
      Get data (str "message") = Normal (VString (c :: m)) ->
      console (snd (POST Number_toString request w)) =
      Log (str "Contact form submission:") (VString s) (VString (c :: m))
        (clock w) :: console w.
Proof.
  intros Hjson Hjson' Hemail Hemail' Hyes.
  exists (acknowledgement Number_toString).
  rewrite (POST_string_email request w Hjson Hemail), Hyes.
  rewrite (POST_string_email request' w' Hjson' Hemail'), Hyes.
  destruct s as [|c0 s]; [discriminate|].
  destruct (@Get_total data (str "email") _ (str "message") Hemail)
    as (m1 & ->).
  destruct (@Get_total data' (str "email") _ (str "message") Hemail')
    as (m2 & ->).
  repeat split. intros c m Hm. injection Hm as ->. reflexivity.
Qed.

(** C9. Every request is answered: the handler returns a response, with
    status 200, 400 or 500, the one header [Content-Type: application/json],
    and as body the JSON text of an object with the keys [success] and
    [message] (status 200) or with the one key [error] (status 400 or
    500). *)
Theorem response_shape request w :
  exists r w',
    POST Number_toString request w = (Normal r, w') /\
    headers r = [(str "Content-Type", str "application/json")] /\
    ((status r = 200%Z /\
      exists m,
        body r =
        JSON_stringify Number_toString
          (VObject [(str "success", VBool true); (str "message", VString m)]))
     \/
     ((status r = 400%Z \/ status r = 500%Z) /\
      exists m,
        body r =
        JSON_stringify Number_toString (VObject [(str "error", VString m)]))).
Proof.
  run_handler.
  destruct (json request) as [data|e]; [|answered_with_error].
  destruct (Get data (str "email")) as [email|e]; [|answered_with_error].
  destruct (negb (ToBoolean email)); [answered_with_error|].
  destruct (ToString Number_toString email) as [s|e]; [|answered_with_error].
  destruct (negb (RegExp.exec emailRegex s)); [answered_with_error|].
  destruct (Get data (str "message")) as [message|e]; [|answered_with_error].
  do 2 eexists. split; [reflexivity|]. split; [reflexivity|].
  left. split; [reflexivity | eexists; reflexivity].
Qed.

(** The four bodies the handler can send are four different texts. *)
Lemma malformed_body_is_no_other :
  JSON_stringify Number_toString
    (error_object "Please enter a valid email address") <>
  JSON_stringify Number_toString (error_object "Email address is required") /\
  JSON_stringify Number_toString
    (error_object "Please enter a valid email address") <>
  JSON_stringify Number_toString (error_object "Internal server error") /\
  JSON_stringify Number_toString
    (error_object "Please enter a valid email address") <>
  JSON_stringify Number_toString success_object.
Proof. split; [|split]; cbv; intros H; discriminate H. Qed.

(** C10, as the code has it.  An email that is falsy (the empty string,
    [null], [0], [false]) takes the missing-email branch: status 400, body
    [{ error: 'Email address is required' }].  The malformed-email body is
    returned only for a truthy email whose conversion to a string fails the
    pattern: for a string email, only for a non-empty one that fails the
    pattern. *)
Theorem missing_vs_malformed_email request data email w :
  json request = Normal data ->
  Get data (str "email") = Normal email ->
  (ToBoolean email = false ->
   POST Number_toString request w =
   (Normal (new_Response
              (JSON_stringify Number_toString
                 (VObject [(str "error", VString (str "Email address is required"))]))
              400 json_headers), w)) /\
  (forall r w',
      POST Number_toString request w = (Normal r, w') ->
      body r =
      JSON_stringify Number_toString
        (VObject [(str "error", VString (str "Please enter a valid email address"))]) ->
      ToBoolean email = true /\
      (exists s, ToString Number_toString email = Normal s /\
                 RegExp.exec emailRegex s = false) /\
      (forall s, email = VString s ->
                 s <> [] /\ RegExp.exec emailRegex s = false)).
Proof.
  intros Hjson Hemail. split.
  - intros Hfalsy. run_handler. rewrite Hjson, Hemail, Hfalsy. reflexivity.
  - intros r w'. run_handler. rewrite Hjson, Hemail.
    destruct malformed_body_is_no_other as (Hrequired & Hinternal & Hsuccess).
    destruct (ToBoolean email) eqn:Htruthy; cbn [negb].
    2: { intros Hrun Hbody. injection Hrun as <- _.
         exact (False_ind _ (Hrequired (eq_sym Hbody))). }
    destruct (ToString Number_toString email) as [s|e] eqn:Hprint.
    2: { intros Hrun Hbody. injection Hrun as <- _.
         exact (False_ind _ (Hinternal (eq_sym Hbody))). }
    destruct (RegExp.exec emailRegex s) eqn:Hexec; cbn [negb].
    { destruct (Get data (str "message")); intros Hrun Hbody;
        injection Hrun as <- _;
        [exact (False_ind _ (Hsuccess (eq_sym Hbody)))
        |exact (False_ind _ (Hinternal (eq_sym Hbody)))]. }
    intros _ _. split; [reflexivity|]. split; [exists s; auto|].
    intros s' ->. simpl in Hprint. injection Hprint as ->.
    split; [|assumption]. intros ->. discriminate.
Qed.
End Properties.

(** ** The properties on the specification's examples *)

Lemma malformed_email_400_witness :
  json (request_with (only_email (VString (str "notanemail")))) =
    Normal (only_email (VString (str "notanemail"))) /\
  Get (only_email (VString (str "notanemail"))) (str "email") =
    Normal (VString (str "notanemail")) /\
  RegExp.exec emailRegex (str "notanemail") = false /\
  exists message,
    POST example_printer
      (request_with (only_email (VString (str "notanemail")))) example_world =
    (Normal (new_Response
               (JSON_stringify example_printer
                  (VObject [(str "error", VString (str message))]))
               400 json_headers), example_world).
Proof.
  split; [reflexivity|]. split; [reflexivity|]. split; [reflexivity|].
  apply (@malformed_email_400 example_printer
           (request_with (only_email (VString (str "notanemail"))))
           (only_email (VString (str "notanemail"))) (str "notanemail"));
    reflexivity.
Defined.

(** The specification's other two malformed emails. *)
Example a_at_b_400 :
  RegExp.exec emailRegex (str "a@b") = false /\
  POST example_printer (request_with (only_email (VString (str "a@b"))))
    example_world =
  (Normal (rejection example_printer "Please enter a valid email address"),
   example_world).
Proof. split; reflexivity. Qed.

Example empty_email_400 :
  RegExp.exec emailRegex (str "") = false /\
  POST example_printer (request_with (only_email (VString (str ""))))
    example_world =
  (Normal (rejection example_printer "Email address is required"),
   example_world).
Proof. split; reflexivity. Qed.

Lemma valid_email_200_witness :
  json (request_with (only_email (VString (str "test@example.com")))) =
    Normal (only_email (VString (str "test@example.com"))) /\
  Get (only_email (VString (str "test@example.com"))) (str "email") =
    Normal (VString (str "test@example.com")) /\
  RegExp.exec emailRegex (str "test@example.com") = true /\
  exists w',
    POST example_printer
      (request_with (only_email (VString (str "test@example.com"))))
      example_world =
    (Normal (new_Response
               (JSON_stringify example_printer
                  (VObject
                     [(str "success", VBool true);
                      (str "message",
                       VString (str "Thank you for your interest! We will get back to you soon."))]))
               200 json_headers), w').
Proof.
  split; [reflexivity|]. split; [reflexivity|]. split; [reflexivity|].
  apply (@valid_email_200 example_printer
           (request_with (only_email (VString (str "test@example.com"))))
           (only_email (VString (str "test@example.com")))
           (str "test@example.com"));
    reflexivity.
Defined.

(** C3 as the specification states it fails on the body [null]: it has no
    email field, reading [data.email] throws, and the answer is 500. *)
Lemma null_body_has_no_email_and_gets_500 :
  json (request_with VNull) = Normal VNull /\
  email_absent VNull = true /\
  POST example_printer (request_with VNull) example_world =
  (Normal (new_Response
             (JSON_stringify example_printer
                (VObject [(str "error", VString (str "Internal server error"))]))
             500 json_headers),
   {| clock := clock example_world;
      console :=
        Error (str "Contact form error:") TypeError :: console example_world |}).
Proof. split; [reflexivity|]. split; reflexivity. Qed.

Lemma absent_email_400_unless_null_witness :
  json (request_with (VObject [(str "message", VString (str "Hello"))])) =
    Normal (VObject [(str "message", VString (str "Hello"))]) /\
  VObject [(str "message", VString (str "Hello"))] <> VUndefined /\
  VObject [(str "message", VString (str "Hello"))] <> VNull /\
  email_absent (VObject [(str "message", VString (str "Hello"))]) = true /\
  POST example_printer
    (request_with (VObject [(str "message", VString (str "Hello"))]))
    example_world =
  (Normal (new_Response
             (JSON_stringify example_printer
                (VObject [(str "error", VString (str "Email address is required"))]))
             400 json_headers), example_world).
Proof.
  split; [reflexivity|]. split; [discriminate|]. split; [discriminate|].
  split; [reflexivity|].
  apply (@absent_email_400_unless_null example_printer
           (request_with (VObject [(str "message", VString (str "Hello"))]))
           (VObject [(str "message", VString (str "Hello"))]));
    [reflexivity | discriminate | discriminate | reflexivity].
Defined.

(** A body that is a JSON value without properties, other than [null], has
    no email either. *)
Example array_body_400 :
  POST example_printer (request_with (VArray [])) example_world =
  (Normal (rejection example_printer "Email address is required"),
   example_world).
Proof. reflexivity. Qed.

(** A body that is not JSON: [request.json()] rejects with a SyntaxError. *)
Lemma unexpected_exception_500_witness :
  POST_try example_printer {| json := Throw SyntaxError |} example_world =
    (Throw SyntaxError, example_world) /\
  POST example_printer {| json := Throw SyntaxError |} example_world =
  (Normal (new_Response
             (JSON_stringify example_printer
                (VObject [(str "error", VString (str "Internal server error"))]))
             500 json_headers),
   {| clock := clock example_world;
      console :=
        Error (str "Contact form error:") SyntaxError :: console example_world |}).
Proof.
  split; [reflexivity|].
  apply (@unexpected_exception_500 example_printer
           {| json := Throw SyntaxError |} example_world SyntaxError
           example_world).
  reflexivity.
Defined.

Lemma resubmission_independent_witness :
  json (request_with (only_email (VString (str "test@example.com")))) =
    Normal (only_email (VString (str "test@example.com"))) /\
  Get (only_email (VString (str "test@example.com"))) (str "email") =
    Normal (VString (str "test@example.com")) /\
  RegExp.exec emailRegex (str "test@example.com") = true /\
  exists r w1 w2,
    POST example_printer
      (request_with (only_email (VString (str "test@example.com"))))
      example_world = (Normal r, w1) /\
    POST example_printer
      (request_with (only_email (VString (str "test@example.com")))) w1 =
      (Normal r, w2) /\
    status r = 200%Z /\
    List.length (console w1) = S (List.length (console example_world)) /\
    List.length (console w2) = S (List.length (console w1)) /\
    forall w3,
      fst (POST example_printer
             (request_with (only_email (VString (str "test@example.com"))))
             w3) = Normal r.
Proof.
  split; [reflexivity|]. split; [reflexivity|]. split; [reflexivity|].
  apply (@resubmission_independent example_printer
           (request_with (only_email (VString (str "test@example.com"))))
           (only_email (VString (str "test@example.com")))
           (str "test@example.com"));
    reflexivity.
Defined.

(** The specification's example with a message, against the same email
    without one. *)
Lemma message_does_not_influence_response_witness :
  json (request_with
          (email_and_message (VString (str "test@example.com"))
             (VString (str "Hello")))) =
    Normal (email_and_message (VString (str "test@example.com"))
              (VString (str "Hello"))) /\
  json (request_with (only_email (VString (str "test@example.com")))) =
    Normal (only_email (VString (str "test@example.com"))) /\
  Get (email_and_message (VString (str "test@example.com"))
         (VString (str "Hello"))) (str "email") =
    Normal (VString (str "test@example.com")) /\
  Get (only_email (VString (str "test@example.com"))) (str "email") =
    Normal (VString (str "test@example.com")) /\
  RegExp.exec emailRegex (str "test@example.com") = true /\
  exists r,
    fst (POST example_printer
           (request_with
              (email_and_message (VString (str "test@example.com"))
                 (VString (str "Hello")))) example_world) = Normal r /\
    fst (POST example_printer
           (request_with (only_email (VString (str "test@example.com"))))
           {| clock := 0; console := [] |}) = Normal r /\
    status r = 200%Z /\
    forall c m,
      Get (email_and_message (VString (str "test@example.com"))
             (VString (str "Hello"))) (str "message") =
        Normal (VString (c :: m)) ->
      console
        (snd (POST example_printer
                (request_with
                   (email_and_message (VString (str "test@example.com"))
                      (VString (str "Hello")))) example_world)) =
      Log (str "Contact form submission:") (VString (str "test@example.com"))
        (VString (c :: m)) (clock example_world) :: console example_world.
Proof.
  split; [reflexivity|]. split; [reflexivity|]. split; [reflexivity|].
  split; [reflexivity|]. split; [reflexivity|].
  apply (@message_does_not_influence_response example_printer
           (request_with
              (email_and_message (VString (str "test@example.com"))
                 (VString (str "Hello"))))
           (request_with (only_email (VString (str "test@example.com"))))
           (email_and_message (VString (str "test@example.com"))
              (VString (str "Hello")))
           (only_email (VString (str "test@example.com")))
           (str "test@example.com"));
    reflexivity.
Defined.

(** The message as it is logged: the one sent, or the placeholder. *)
Example hello_is_logged :
  console
    (snd (POST example_printer
            (request_with
               (email_and_message (VString (str "test@example.com"))
                  (VString (str "Hello")))) example_world)) =
  [Log (str "Contact form submission:") (VString (str "test@example.com"))
     (VString (str "Hello")) (clock example_world)].
Proof. reflexivity. Qed.

Example no_message_is_logged :
  console
    (snd (POST example_printer
            (request_with (only_email (VString (str "test@example.com"))))
            example_world)) =
  [Log (str "Contact form submission:") (VString (str "test@example.com"))
     (VString (str "No message provided")) (clock example_world)].
Proof. reflexivity. Qed.

(** C10 as the specification states it fails on [{ "email": true }]: the
    email is not a string, it is truthy, it prints as [true], which is no
    address, and the answer is the malformed-email body. *)
Lemma malformed_body_for_boolean_email :
  Get (only_email (VBool true)) (str "email") = Normal (VBool true) /\
  (forall s, VBool true <> VString s) /\
  POST example_printer (request_with (only_email (VBool true))) example_world =
  (Normal (new_Response
             (JSON_stringify example_printer
                (VObject [(str "error", VString (str "Please enter a valid email address"))]))
             400 json_headers), example_world).
Proof. split; [reflexivity|]. split; [discriminate | reflexivity]. Qed.

Lemma missing_vs_malformed_email_witness :
  json (request_with (only_email (VString []))) =
    Normal (only_email (VString [])) /\
  Get (only_email (VString [])) (str "email") = Normal (VString []) /\
  (ToBoolean (VString []) = false ->
   POST example_printer (request_with (only_email (VString [])))
     example_world =
   (Normal (new_Response
              (JSON_stringify example_printer
                 (VObject [(str "error", VString (str "Email address is required"))]))
              400 json_headers), example_world)) /\
  (forall r w',
      POST example_printer (request_with (only_email (VString [])))
        example_world = (Normal r, w') ->
      body r =
      JSON_stringify example_printer
        (VObject [(str "error", VString (str "Please enter a valid email address"))]) ->
      ToBoolean (VString []) = true /\
      (exists s, ToString example_printer (VString []) = Normal s /\
                 RegExp.exec emailRegex s = false) /\
      (forall s, VString [] = VString s ->
                 s <> [] /\ RegExp.exec emailRegex s = false)).
Proof.
  split; [reflexivity|]. split; [reflexivity|].
  apply (@missing_vs_malformed_email example_printer
           (request_with (only_email (VString [])))
           (only_email (VString [])) (VString []) example_world);
    reflexivity.
Defined.

(** The other falsy emails the specification names. *)
Example null_zero_false_are_missing :
  POST example_printer (request_with (only_email VNull)) example_world =
    (Normal (rejection example_printer "Email address is required"),
     example_world) /\
  POST example_printer (request_with (only_email (VNumber (S754_zero false))))
    example_world =
    (Normal (rejection example_printer "Email address is required"),
     example_world) /\
  POST example_printer (request_with (only_email (VBool false)))
    example_world =
    (Normal (rejection example_printer "Email address is required"),
     example_world).
Proof. repeat split. Qed.

End ContactFacts.

(* ===================================================================== *)
(** * The client's properties                                              *)
(* ===================================================================== *)

Module ContactFormFacts.
Import JS ContactForm.

Lemma run_reachable es :
  forall c c', reachable c -> run c es = Some c' -> reachable c'.
Proof.
  induction es as [|e es IH]; simpl; intros c c' Hc Hrun.
  - injection Hrun as <-. exact Hc.
  - destruct (step c e) as [c1|] eqn:Hstep; [|discriminate].
    apply (IH c1 c'); [|exact Hrun].
    exact (@reachable_step c e c1 Hc Hstep).
Qed.

Ltac case_state c :=
  destruct c as [[[em msg] submitting_ submitted_ err] n];
  destruct submitting_, submitted_, err.

(** Runs [step] in [H] without unfolding the browser's check. *)
Ltac run_step H :=
  unfold step, render in H;
  cbn [ui in_flight formData email message isSubmitting isSubmitted error]
    in H;
  try discriminate H;
  try match type of H with
      | context [email_field_valid ?v] =>
          destruct (email_field_valid v) eqn:?; [|discriminate H]
      end;
  try match type of H with
      | context [match ?n with O => _ | S _ => _ end] =>
          destruct n; [discriminate H|]
      end;
  injection H as <-.

Lemma step_consistent c e c' :
  consistent c -> step c e = Some c' -> consistent c'.
Proof.
  unfold consistent. intros (Hn & Hsub & Hdone) Hstep.
  case_state c; cbn in Hn, Hsub, Hdone;
    try (destruct (Hsub eq_refl); discriminate);
    try (specialize (Hdone eq_refl); discriminate);
    subst n;
    destruct e as [name v| |[st|]|]; run_step Hstep;
    cbn; try destruct (ok st); cbn;
    repeat split; intros; try discriminate; try reflexivity.
Qed.

Lemma reachable_consistent c : reachable c -> consistent c.
Proof.
  induction 1 as [|c e c' _ IH Hstep].
  - unfold consistent; cbn. repeat split; intros; discriminate.
  - exact (@step_consistent c e c' IH Hstep).
Qed.

(** What [step] makes of a submit event. *)
Lemma step_Submit c :
  step c Submit =
  if negb (isSubmitted (ui c)) && negb (isSubmitting (ui c))
     && email_field_valid (email (formData (ui c)))
  then Some {| ui := handleSubmit_start (ui c); in_flight := S (in_flight c) |}
  else None.
Proof.
  unfold step, render.
  destruct (isSubmitted (ui c)), (isSubmitting (ui c)); reflexivity.
Qed.

(** C5. In every reachable configuration, an event that happens makes the
    transition the specification gives it: submit leads from idle (or from
    the error state, which is idle with a banner) to submitting, fields
    unchanged; an ok response leads from submitting to submitted; a non-ok
    response or a network failure leads from submitting to the error state,
    fields unchanged; reset leads from submitted to idle with both fields
    empty; editing a field changes no state.  And each of them can happen
    where the component offers it: submit in an idle or error state whose
    email field passes the browser's check (with a field that does not, the
    form is not submitted), the end of the fetch, whichever way, in the
    submitting state, reset in the submitted state. *)
Theorem client_transitions c :
  reachable c ->
  (forall e c', step c e = Some c' -> transition (ui c) e (ui c')) /\
  (idle_like (phase_of (ui c)) ->
   if email_field_valid (email (formData (ui c)))
   then exists c', step c Submit = Some c'
   else step c Submit = None) /\
  (phase_of (ui c) = submitting ->
   forall o, exists c', step c (Settle o) = Some c') /\
  (phase_of (ui c) = submitted -> exists c', step c Reset = Some c').
Proof.
  intros Hreach. apply reachable_consistent in Hreach.
  destruct Hreach as (Hn & Hsub & Hdone). unfold idle_like.
  split; [|split; [|split]].
  - intros e c' Hstep.
    case_state c; cbn in Hn, Hsub, Hdone;
      try (destruct (Hsub eq_refl); discriminate);
      try (specialize (Hdone eq_refl); discriminate);
      subst n;
      destruct e as [[|] v| |[st|]|]; run_step Hstep;
      unfold transition, idle_like, handleSubmit_settle; cbn [ui];
      try destruct (ok st); cbn; auto.
  - intros Hidle. rewrite step_Submit.
    case_state c; cbn in Hidle |- *;
      try (destruct Hidle as [Hp|Hp]; discriminate Hp);
      destruct (email_field_valid em); cbn; eauto.
  - intros Hp o.
    case_state c; cbn in Hn, Hsub, Hdone, Hp;
      try discriminate Hp;
      try (destruct (Hsub eq_refl); discriminate);
      subst n; eexists; reflexivity.
  - intros Hp.
    case_state c; cbn in Hp; try discriminate Hp; eexists; reflexivity.
Qed.

Lemma successful_session_submitted :
  run {| ui := initial; in_flight := 0 |} successful_session =
  Some after_success.
Proof. reflexivity. Qed.

Lemma ready_reachable : reachable ready.
Proof.
  apply (@run_reachable
           [Change Email (str "test@example.com"); Change Message (str "Hello")]
           {| ui := initial; in_flight := 0 |} ready reachable_initial).
  reflexivity.
Qed.

Lemma pending_reachable : reachable pending.
Proof.
  apply (@run_reachable [Submit] ready pending ready_reachable).
  reflexivity.
Qed.

Lemma after_failure_reachable : reachable after_failure.
Proof.
  apply (@run_reachable [Settle (Resolved 400)] pending after_failure
           pending_reachable).
  reflexivity.
Qed.

Lemma after_success_reachable : reachable after_success.
Proof.
  exact (@run_reachable successful_session _ _ reachable_initial
           successful_session_submitted).
Qed.

(** The theorem in the four states of one session: the form filled in, the
    request pending, and the two ways it can end. *)
Lemma client_transitions_witness :
  (reachable ready /\
   (forall e c', step ready e = Some c' -> transition (ui ready) e (ui c')) /\
   (idle_like (phase_of (ui ready)) ->
    if email_field_valid (email (formData (ui ready)))
    then exists c', step ready Submit = Some c'
    else step ready Submit = None) /\
   (phase_of (ui ready) = submitting ->
    forall o, exists c', step ready (Settle o) = Some c') /\
   (phase_of (ui ready) = submitted ->
    exists c', step ready Reset = Some c')) /\
  (reachable pending /\
   (forall e c',
       step pending e = Some c' -> transition (ui pending) e (ui c')) /\
   (idle_like (phase_of (ui pending)) ->
    if email_field_valid (email (formData (ui pending)))
    then exists c', step pending Submit = Some c'
    else step pending Submit = None) /\
   (phase_of (ui pending) = submitting ->
    forall o, exists c', step pending (Settle o) = Some c') /\
   (phase_of (ui pending) = submitted ->
    exists c', step pending Reset = Some c')) /\
  (reachable after_failure /\
   (forall e c',
       step after_failure e = Some c' ->
       transition (ui after_failure) e (ui c')) /\
   (idle_like (phase_of (ui after_failure)) ->
    if email_field_valid (email (formData (ui after_failure)))
    then exists c', step after_failure Submit = Some c'
    else step after_failure Submit = None) /\
   (phase_of (ui after_failure) = submitting ->
    forall o, exists c', step after_failure (Settle o) = Some c') /\
   (phase_of (ui after_failure) = submitted ->
    exists c', step after_failure Reset = Some c')) /\
  (reachable after_success /\
   (forall e c',
       step after_success e = Some c' ->
       transition (ui after_success) e (ui c')) /\
   (idle_like (phase_of (ui after_success)) ->
    if email_field_valid (email (formData (ui after_success)))
    then exists c', step after_success Submit = Some c'
    else step after_success Submit = None) /\
   (phase_of (ui after_success) = submitting ->
    forall o, exists c', step after_success (Settle o) = Some c') /\
   (phase_of (ui after_success) = submitted ->
    exists c', step after_success Reset = Some c')) /\
  phase_of (ui ready) = idle /\
  email_field_valid (email (formData (ui ready))) = true /\
  step ready Submit = Some pending /\
  phase_of (ui pending) = submitting /\
  step pending (Settle (Resolved 200)) = Some after_success /\
  step pending (Settle (Resolved 400)) = Some after_failure /\
  step pending (Settle Rejected) = Some after_failure /\
  phase_of (ui after_failure) = failed /\
  step after_failure Submit = Some pending /\
  phase_of (ui after_success) = submitted /\
  step after_success Reset = Some {| ui := initial; in_flight := 0 |}.
Proof.
  split; [split; [exact ready_reachable
                 | exact (@client_transitions ready ready_reachable)]|].
  split; [split; [exact pending_reachable
                 | exact (@client_transitions pending pending_reachable)]|].
  split; [split; [exact after_failure_reachable
                 | exact (@client_transitions after_failure
                            after_failure_reachable)]|].
  split; [split; [exact after_success_reachable
                 | exact (@client_transitions after_success
                            after_success_reachable)]|].
  repeat (split; [reflexivity|]). reflexivity.
Defined.

(** C6. From every reachable configuration in the submitted state, the
    reset action is offered and yields the idle state with the email and the
    message both empty: the state of the first render. *)
Theorem reset_after_success c :
  reachable c ->
  phase_of (ui c) = submitted ->
  exists c',
    step c Reset = Some c' /\
    phase_of (ui c') = idle /\
    email (formData (ui c')) = [] /\
    message (formData (ui c')) = [] /\
    ui c' = initial.
Proof.
  intros Hreach Hphase. apply reachable_consistent in Hreach.
  destruct Hreach as (Hn & Hsub & Hdone).
  case_state c; cbn in Hn, Hsub, Hdone, Hphase;
    try discriminate Hphase;
    try (destruct (Hsub eq_refl); discriminate);
    try (specialize (Hdone eq_refl); discriminate).
  eexists. split; [reflexivity|]. cbn. auto.
Qed.

Lemma reset_after_success_witness :
  reachable after_success /\
  phase_of (ui after_success) = submitted /\
  exists c',
    step after_success Reset = Some c' /\
    phase_of (ui c') = idle /\
    email (formData (ui c')) = [] /\
    message (formData (ui c')) = [] /\
    ui c' = initial.
Proof.
  assert (Hreach : reachable after_success).
  { exact (@run_reachable successful_session _ _ reachable_initial
             successful_session_submitted). }
  split; [exact Hreach|]. split; [reflexivity|].
  exact (@reset_after_success after_success Hreach eq_refl).
Defined.

End ContactFormFacts.

(* ===================================================================== *)
(** * More on the endpoint                                                 *)
(* ===================================================================== *)

Module ContactMore.
Import JS Contact ContactFacts.

Section More.

Variable Number_toString : number -> js_string.

(** X1. The status of the answer, case by case and for every request: 200
    exactly when the body parses, its email can be read, is truthy, converts
    to a string and that string matches the pattern; 400 exactly when the
    email can be read and is falsy or converts to a string that fails the
    pattern; 500 exactly when the body does not parse, the email cannot be
    read, or a truthy email cannot be converted to a string. *)
Theorem status_by_cases request w :
  exists r w',
    POST Number_toString request w = (Normal r, w') /\
    (status r = 200%Z <->
     exists data email s,
       json request = Normal data /\
       Get data (str "email") = Normal email /\
       ToBoolean email = true /\
       ToString Number_toString email = Normal s /\
       RegExp.exec emailRegex s = true) /\
    (status r = 400%Z <->
     exists data email,
       json request = Normal data /\
       Get data (str "email") = Normal email /\
       (ToBoolean email = false \/
        exists s, ToString Number_toString email = Normal s /\
                  RegExp.exec emailRegex s = false)) /\
    (status r = 500%Z <->
     (exists e, json request = Throw e) \/
     (exists data e,
         json request = Normal data /\ Get data (str "email") = Throw e) \/
     (exists data email e,
         json request = Normal data /\
         Get data (str "email") = Normal email /\
         ToBoolean email = true /\
         ToString Number_toString email = Throw e)).
Proof.
  run_handler.
  destruct (json request) as [data|e] eqn:Hjson.
  2: { do 2 eexists. split; [reflexivity|]. cbn [status new_Response].
       split; [|split].
       - split; [discriminate|]. intros (d & em & s & H & _). discriminate.
       - split; [discriminate|]. intros (d & em & H & _). discriminate.
       - split; [eauto|reflexivity]. }
  destruct (Get data (str "email")) as [email|e] eqn:Hemail.
  2: { do 2 eexists. split; [reflexivity|]. cbn [status new_Response].
       split; [|split].
       - split; [discriminate|]. intros (d & em & s & H & H' & _). congruence.
       - split; [discriminate|]. intros (d & em & H & H' & _). congruence.
       - split; [intros _; right; left; eauto|reflexivity]. }
  destruct (ToBoolean email) eqn:Htruthy; cbn [negb].
  2: { do 2 eexists. split; [reflexivity|]. cbn [status new_Response].
       split; [|split].
       - split; [discriminate|]. intros (d & em & s & H & H' & H'' & _). congruence.
       - split; [intros _; exists data, email; auto|reflexivity].
       - split; [discriminate|].
         intros [(e & H)|[(d & e & H & H')|(d & em & e & H & H' & H'' & _)]];
           congruence. }
  destruct (ToString Number_toString email) as [s|e] eqn:Hprint.
  2: { do 2 eexists. split; [reflexivity|]. cbn [status new_Response].
       split; [|split].
       - split; [discriminate|].
         intros (d & em & s & H & H' & _ & H'' & _). congruence.
       - split; [discriminate|].
         intros (d & em & H & H' & [H''|(s & H'' & _)]); congruence.
       - split; [intros _; right; right; exists data, email, e; auto|reflexivity]. }
  destruct (RegExp.exec emailRegex s) eqn:Hexec; cbn [negb].
  2: { do 2 eexists. split; [reflexivity|]. cbn [status new_Response].
       split; [|split].
       - split; [discriminate|].
         intros (d & em & s' & H & H' & _ & H'' & H3). congruence.
       - split; [intros _; exists data, email; split; [|split]; eauto|reflexivity].
       - split; [discriminate|].
         intros [(e & H)|[(d & e & H & H')|(d & em & e & H & H' & _ & H'')]];
           congruence. }
  destruct (@Get_total data (str "email") _ (str "message") Hemail) as (m & ->).
  do 2 eexists. split; [reflexivity|]. cbn [status new_Response].
  split; [|split].
  - split; [intros _; exists data, email, s; auto|reflexivity].
  - split; [discriminate|].
    intros (d & em & H & H' & [H''|(s' & H'' & H3)]); congruence.
  - split; [discriminate|].
    intros [(e & H)|[(d & e & H & H')|(d & em & e & H & H' & _ & H'')]];
      congruence.
Qed.


(** X2. What a request leaves behind, by status: a 400 leaves the world as
    it was (a validation failure is not logged); a 200 adds one line to the
    console, with the email as read, the message or, for a falsy message,
    the placeholder, and the time of the clock; a 500 adds one line, with
    the error the [try] block threw.  The clock is never touched. *)
Theorem console_by_status request w :
  exists r w',
    POST Number_toString request w = (Normal r, w') /\
    clock w' = clock w /\
    (status r = 400%Z -> w' = w) /\
    (status r = 200%Z ->
     exists data email message,
       json request = Normal data /\
       Get data (str "email") = Normal email /\
       Get data (str "message") = Normal message /\
       console w' =
       Log (str "Contact form submission:") email
         (if ToBoolean message then message
          else VString (str "No message provided"))
         (clock w) :: console w) /\
    (status r = 500%Z ->
     exists e,
       POST_try Number_toString request w = (Throw e, w) /\
       console w' = Error (str "Contact form error:") e :: console w).
Proof.
  run_handler.
  destruct (json request) as [data|e] eqn:Hjson.
  2: { do 2 eexists. split; [reflexivity|]. cbn.
       repeat split; try discriminate. intros _. eauto. }
  destruct (Get data (str "email")) as [email|e] eqn:Hemail.
  2: { do 2 eexists. split; [reflexivity|]. cbn.
       repeat split; try discriminate. intros _. eauto. }
  destruct (ToBoolean email) eqn:Htruthy; cbn [negb].
  2: { do 2 eexists. split; [reflexivity|]. cbn.
       repeat split; discriminate. }
  destruct (ToString Number_toString email) as [s|e] eqn:Hprint.
  2: { do 2 eexists. split; [reflexivity|]. cbn.
       repeat split; try discriminate. intros _. eauto. }
  destruct (RegExp.exec emailRegex s) eqn:Hexec; cbn [negb].
  2: { do 2 eexists. split; [reflexivity|]. cbn.
       repeat split; discriminate. }
  destruct (@Get_total data (str "email") _ (str "message") Hemail) as (m & Hm).
  rewrite Hm.
  do 2 eexists. split; [reflexivity|]. cbn.
  repeat split; try discriminate. intros _. exists data, email, m. auto.
Qed.


(** X5. An email that is a one-element array holding a matching string is
    accepted like the string: [test] converts the array to the string, the
    answer is 200, and the array itself is what is logged. *)
Theorem array_wrapped_email_accepted request data s w :
  json request = Normal data ->
  Get data (str "email") = Normal (VArray [VString s]) ->
  RegExp.exec emailRegex s = true ->
  exists message,
    Get data (str "message") = Normal message /\
    POST Number_toString request w =
    (Normal (new_Response
               (JSON_stringify Number_toString success_object)
               200 json_headers),
     {| clock := clock w;
        console :=
          Log (str "Contact form submission:") (VArray [VString s])
            (logical_or message (VString (str "No message provided")))
            (clock w) :: console w |}).
Proof.
  intros Hjson Hemail Hyes.
  destruct (@Get_total data (str "email") _ (str "message") Hemail) as (m & Hm).
  exists m. split; [exact Hm|].
  run_handler. rewrite Hjson, Hemail. cbn [ToBoolean negb ToString].
  rewrite Hyes. cbn [negb]. rewrite Hm. reflexivity.
Qed.

(** X6. An email that is an object is never accepted: without a property
    [toString] of its own it prints as [[object Object]] and gets the
    malformed-email answer, status 400; with one, converting it throws and
    the answer is 500. *)
Theorem object_email_never_accepted request data props w :
  json request = Normal data ->
  Get data (str "email") = Normal (VObject props) ->
  POST Number_toString request w =
  match own_property props (str "toString") with
  | None =>
      (Normal (new_Response
                 (JSON_stringify Number_toString
                    (error_object "Please enter a valid email address"))
                 400 json_headers), w)
  | Some _ =>
      (Normal (new_Response
                 (JSON_stringify Number_toString
                    (error_object "Internal server error"))
                 500 json_headers),
       {| clock := clock w;
          console :=
            Error (str "Contact form error:") TypeError :: console w |})
  end.
Proof.
  intros Hjson Hemail. run_handler. rewrite Hjson, Hemail.
  cbn [ToBoolean negb ToString].
  destruct (own_property props (str "toString")); reflexivity.
Qed.

Lemma address_chars_plain l :
  forallb address_char l = true ->
  existsb RegExp.is_white_space l = false /\ count_occ N.eq_dec l 64%N = 0.
Proof.
  induction l as [|c l IH]; cbn [forallb existsb count_occ]; [auto|].
  intros H. apply andb_true_iff in H as [Hc Hl].
  destruct (IH Hl) as [IHw IHc]. unfold address_char in Hc.
  apply negb_true_iff, orb_false_iff in Hc as [Hw Hat].
  rewrite Hw, IHw. split; [reflexivity|].
  destruct (N.eq_dec c 64) as [->|_]; [discriminate Hat | exact IHc].
Qed.

Lemma shaped_address_facts s :
  local_at_domain_dot_tld s ->
  5 <= List.length s /\
  count_occ N.eq_dec s 64%N = 1 /\
  existsb RegExp.is_white_space s = false.
Proof.
  intros (l & d & t & -> & Hl & Hd & Ht & Hfl & Hfd & Hft).
  apply address_chars_plain in Hfl as [Hwl Hcl].
  apply address_chars_plain in Hfd as [Hwd Hcd].
  apply address_chars_plain in Hft as [Hwt Hct].
  repeat rewrite ?length_app, ?count_occ_app, ?existsb_app.
  unfold js_string, code_unit in *.
  rewrite Hwl, Hwd, Hwt, Hcl, Hcd, Hct.
  destruct l; [congruence|]. destruct d; [congruence|]. destruct t; [congruence|].
  cbn. repeat split; lia.
Qed.

(** X4. A string email shorter than five characters, or with no [@] or
    more than one, or with a white-space character anywhere (nothing is
    trimmed), is answered with status 400 and a JSON error body. *)
Theorem short_spaced_or_multi_at_rejected request data s w :
  json request = Normal data ->
  Get data (str "email") = Normal (VString s) ->
  List.length s < 5 \/
  count_occ N.eq_dec s 64%N <> 1 \/
  existsb RegExp.is_white_space s = true ->
  exists message,
    POST Number_toString request w =
    (Normal (new_Response
               (JSON_stringify Number_toString (error_object message))
               400 json_headers), w).
Proof.
  intros Hjson Hemail Hbad.
  assert (Hno : RegExp.exec emailRegex s = false).
  { destruct (RegExp.exec emailRegex s) eqn:Hexec; [|reflexivity].
    apply RegExpFacts.emailRegex_exec_spec, shaped_address_facts in Hexec.
    destruct Hexec as (Hlen & Hat & Hws).
    destruct Hbad as [H|[H|H]]; [lia | contradiction | congruence]. }
  rewrite (POST_string_email Number_toString request w Hjson Hemail), Hno.
  destruct s; eexists; reflexivity.
Qed.

(** X7. With an engine whose printed numbers contain no [@], an email that
    is a number is answered with status 400 and nothing is logged: zero and
    NaN get the body of a missing email, every other number that of a
    malformed one. *)
Theorem number_email_rejected request data x w :
  (forall y, ~ In 64%N (Number_toString y)) ->
  json request = Normal data ->
  Get data (str "email") = Normal (VNumber x) ->
  POST Number_toString request w =
  (Normal (new_Response
             (JSON_stringify Number_toString
                (error_object
                   match x with
                   | S754_zero _ | S754_nan => "Email address is required"
                   | S754_infinity _ | S754_finite _ _ _ =>
                       "Please enter a valid email address"
                   end))
             400 json_headers), w).
Proof.
  intros Hprinter Hjson Hemail. run_handler. rewrite Hjson, Hemail.
  assert (Hno : RegExp.exec emailRegex (Number_toString x) = false).
  { destruct (RegExp.exec emailRegex (Number_toString x)) eqn:Hexec;
      [|reflexivity].
    apply RegExpFacts.emailRegex_exec_spec in Hexec.
    destruct Hexec as (l & d & t & Hs & _).
    exfalso. apply (Hprinter x). rewrite Hs.
    apply in_or_app. right. left. reflexivity. }
  destruct x; cbn [ToBoolean negb ToString]; try reflexivity;
    rewrite Hno; reflexivity.
Qed.

End More.

(** ** On examples *)

(** X3 on the specification's address. *)
Lemma string_email_accepted_iff_shaped_witness :
  json (request_with (only_email (VString (str "test@example.com")))) =
    Normal (only_email (VString (str "test@example.com"))) /\
  Get (only_email (VString (str "test@example.com"))) (str "email") =
    Normal (VString (str "test@example.com")) /\
  exists r w',
    POST example_printer
      (request_with (only_email (VString (str "test@example.com"))))
      example_world = (Normal r, w') /\
    (status r = 200%Z <-> local_at_domain_dot_tld (str "test@example.com")) /\
    (status r = 400%Z <-> ~ local_at_domain_dot_tld (str "test@example.com")).
Proof.
  split; [reflexivity|]. split; [reflexivity|].
  apply (@string_email_accepted_iff_shaped example_printer
           (request_with (only_email (VString (str "test@example.com"))))
           (only_email (VString (str "test@example.com")))
           (str "test@example.com"));
    reflexivity.
Defined.

(** A leading space is not trimmed away. *)
Lemma short_spaced_or_multi_at_rejected_witness :
  json (request_with (only_email (VString (str " test@example.com")))) =
    Normal (only_email (VString (str " test@example.com"))) /\
  Get (only_email (VString (str " test@example.com"))) (str "email") =
    Normal (VString (str " test@example.com")) /\
  existsb RegExp.is_white_space (str " test@example.com") = true /\
  exists message,
    POST example_printer
      (request_with (only_email (VString (str " test@example.com"))))
      example_world =
    (Normal (new_Response
               (JSON_stringify example_printer (error_object message))
               400 json_headers), example_world).
Proof.
  split; [reflexivity|]. split; [reflexivity|]. split; [reflexivity|].
  apply (@short_spaced_or_multi_at_rejected example_printer
           (request_with (only_email (VString (str " test@example.com"))))
           (only_email (VString (str " test@example.com")))
           (str " test@example.com"));
    [reflexivity | reflexivity | right; right; reflexivity].
Defined.

Lemma array_wrapped_email_accepted_witness :
  json (request_with (only_email (VArray [VString (str "test@example.com")]))) =
    Normal (only_email (VArray [VString (str "test@example.com")])) /\
  Get (only_email (VArray [VString (str "test@example.com")])) (str "email") =
    Normal (VArray [VString (str "test@example.com")]) /\
  RegExp.exec emailRegex (str "test@example.com") = true /\
  exists message,
    Get (only_email (VArray [VString (str "test@example.com")]))
      (str "message") = Normal message /\
    POST example_printer
      (request_with (only_email (VArray [VString (str "test@example.com")])))
      example_world =
    (Normal (new_Response
               (JSON_stringify example_printer success_object)
               200 json_headers),
     {| clock := clock example_world;
        console :=
          Log (str "Contact form submission:")
            (VArray [VString (str "test@example.com")])
            (logical_or message (VString (str "No message provided")))
            (clock example_world) :: console example_world |}).
Proof.
  split; [reflexivity|]. split; [reflexivity|]. split; [reflexivity|].
  apply (@array_wrapped_email_accepted example_printer
           (request_with
              (only_email (VArray [VString (str "test@example.com")])))
           (only_email (VArray [VString (str "test@example.com")]))
           (str "test@example.com"));
    reflexivity.
Defined.

Lemma object_email_never_accepted_witness :
  json (request_with (only_email (VObject []))) =
    Normal (only_email (VObject [])) /\
  Get (only_email (VObject [])) (str "email") = Normal (VObject []) /\
  POST example_printer (request_with (only_email (VObject [])))
    example_world =
  match own_property [] (str "toString") with
  | None =>
      (Normal (new_Response
                 (JSON_stringify example_printer
                    (error_object "Please enter a valid email address"))
                 400 json_headers), example_world)
  | Some _ =>
      (Normal (new_Response
                 (JSON_stringify example_printer
                    (error_object "Internal server error"))
                 500 json_headers),
       {| clock := clock example_world;
          console :=
            Error (str "Contact form error:") TypeError
              :: console example_world |})
  end.
Proof.
  split; [reflexivity|]. split; [reflexivity|].
  apply (@object_email_never_accepted example_printer
           (request_with (only_email (VObject [])))
           (only_email (VObject [])) []);
    reflexivity.
Defined.

(** The numbers 5 and 0, with a printer that prints no [@]. *)
Lemma number_email_rejected_witness :
  (forall y, ~ In 64%N (example_printer y)) /\
  (json (request_with (only_email (VNumber (S754_finite false 5 0)))) =
     Normal (only_email (VNumber (S754_finite false 5 0))) /\
   Get (only_email (VNumber (S754_finite false 5 0))) (str "email") =
     Normal (VNumber (S754_finite false 5 0)) /\
   POST example_printer
     (request_with (only_email (VNumber (S754_finite false 5 0))))
     example_world =
   (Normal (new_Response
              (JSON_stringify example_printer
                 (error_object "Please enter a valid email address"))
              400 json_headers), example_world)) /\
  (json (request_with (only_email (VNumber (S754_zero false)))) =
     Normal (only_email (VNumber (S754_zero false))) /\
   Get (only_email (VNumber (S754_zero false))) (str "email") =
     Normal (VNumber (S754_zero false)) /\
   POST example_printer
     (request_with (only_email (VNumber (S754_zero false))))
     example_world =
   (Normal (new_Response
              (JSON_stringify example_printer
                 (error_object "Email address is required"))
              400 json_headers), example_world)).
Proof.
  assert (Hprinter : forall y, ~ In 64%N (example_printer y)).
  { intros y [H|[]]. discriminate H. }
  split; [exact Hprinter|]. split.
  - split; [reflexivity|]. split; [reflexivity|].
    exact (@number_email_rejected example_printer
             (request_with (only_email (VNumber (S754_finite false 5 0))))
             (only_email (VNumber (S754_finite false 5 0)))
             (S754_finite false 5 0) example_world
             Hprinter eq_refl eq_refl).
  - split; [reflexivity|]. split; [reflexivity|].
    exact (@number_email_rejected example_printer
             (request_with (only_email (VNumber (S754_zero false))))
             (only_email (VNumber (S754_zero false)))
             (S754_zero false) example_world
             Hprinter eq_refl eq_refl).
Defined.

End ContactMore.

(* ===================================================================== *)
(** * More on the client                                                   *)
(* ===================================================================== *)

Module ContactFormMore.
Import JS ContactForm ContactFormFacts.

(** X8. One request at a time: in every reachable configuration at most one
    fetch is pending; while one is pending the form cannot be submitted
    again, and while none is, no fetch can end. *)
Theorem one_request_at_a_time c :
  reachable c ->
  in_flight c <= 1 /\
  (in_flight c = 1 -> step c Submit = None) /\
  (in_flight c = 0 -> forall o, step c (Settle o) = None).
Proof.
  intros Hreach. apply reachable_consistent in Hreach.
  destruct Hreach as (Hn & Hsub & _).
  destruct c as [[fd sub subd err] n]; cbn in *.
  destruct sub; subst n.
  - destruct (Hsub eq_refl) as [-> _]. repeat split; auto; discriminate.
  - repeat split; auto; discriminate.
Qed.

Lemma step_error_text c e c' :
  step c e = Some c' ->
  error (ui c) = [] \/ error (ui c) = Submission.generic_error ->
  error (ui c') = [] \/ error (ui c') = Submission.generic_error.
Proof.
  destruct c as [[fd sub subd err] n]. intros Hstep.
  destruct e as [name v| |[st|]|]; destruct subd, sub; run_step Hstep;
    unfold handleSubmit_settle; try destruct (ok st); cbn; auto.
Qed.

(** X9. The error cell only ever holds the empty string or the component's
    one generic message, never a text from the server; and it is empty in
    the submitting and in the submitted state. *)
Theorem error_is_empty_or_generic c :
  reachable c ->
  (error (ui c) = [] \/ error (ui c) = Submission.generic_error) /\
  (phase_of (ui c) = submitting \/ phase_of (ui c) = submitted ->
   error (ui c) = []).
Proof.
  intros Hreach. split.
  - induction Hreach as [|c e c' _ IH Hstep]; [left; reflexivity|].
    exact (@step_error_text c e c' Hstep IH).
  - apply reachable_consistent in Hreach.
    destruct Hreach as (_ & Hsub & Hdone).
    destruct c as [[fd sub subd err] n]; cbn in *.
    unfold phase_of, render; cbn.
    destruct subd; [intros _; auto|].
    destruct sub; [intros _; apply Hsub; reflexivity|].
    destruct err; [reflexivity|]. intros [H|H]; discriminate.
Qed.

Lemma one_request_at_a_time_witness :
  reachable after_success /\
  in_flight after_success <= 1 /\
  (in_flight after_success = 1 -> step after_success Submit = None) /\
  (in_flight after_success = 0 ->
   forall o, step after_success (Settle o) = None).
Proof.
  assert (Hreach : reachable after_success).
  { exact (@run_reachable successful_session _ _ reachable_initial
             successful_session_submitted). }
  split; [exact Hreach|].
  exact (@one_request_at_a_time after_success Hreach).
Defined.

(** The theorem after a failed submission, where the error is the generic
    message, and in the submitting and the submitted state of the same
    session, where it is empty. *)
Lemma error_is_empty_or_generic_witness :
  (reachable after_failure /\
   (error (ui after_failure) = [] \/
    error (ui after_failure) = Submission.generic_error) /\
   (phase_of (ui after_failure) = submitting \/
    phase_of (ui after_failure) = submitted ->
    error (ui after_failure) = [])) /\
  (reachable pending /\
   (error (ui pending) = [] \/
    error (ui pending) = Submission.generic_error) /\
   (phase_of (ui pending) = submitting \/
    phase_of (ui pending) = submitted ->
    error (ui pending) = [])) /\
  (reachable after_success /\
   (error (ui after_success) = [] \/
    error (ui after_success) = Submission.generic_error) /\
   (phase_of (ui after_success) = submitting \/
    phase_of (ui after_success) = submitted ->
    error (ui after_success) = [])) /\
  error (ui after_failure) = Submission.generic_error /\
  phase_of (ui after_failure) = failed /\
  phase_of (ui pending) = submitting /\
  phase_of (ui after_success) = submitted.
Proof.
  split; [split; [exact after_failure_reachable
                 | exact (@error_is_empty_or_generic after_failure
                            after_failure_reachable)]|].
  split; [split; [exact pending_reachable
                 | exact (@error_is_empty_or_generic pending
                            pending_reachable)]|].
  split; [split; [exact after_success_reachable
                 | exact (@error_is_empty_or_generic after_success
                            after_success_reachable)]|].
  repeat (split; [reflexivity|]). reflexivity.
Defined.

End ContactFormMore.

(* ===================================================================== *)
(** * The client against the endpoint, proved                              *)
(* ===================================================================== *)

Module SubmissionFacts.
Import JS ContactForm ContactFormFacts Submission.

(** X10. The form against the endpoint.  From a reachable idle or error
    state whose email field passes the browser's check, submitting and
    getting the endpoint's answer to the body of the current fields ends in
    the submitted state exactly when the email field matches the endpoint's
    pattern, and then the endpoint has logged the email and the message (the
    placeholder for an empty message); otherwise it ends in the error state
    with the generic message, whatever the endpoint's own error text, and
    the endpoint has logged nothing.  The fields are as they were either way
    and no request is left pending. *)
Theorem submit_against_endpoint Number_toString c w o w' :
  reachable c ->
  idle_like (phase_of (ui c)) ->
  email_field_valid (email (formData (ui c))) = true ->
  delivered Number_toString (formData (ui c)) w o w' ->
  exists c',
    run c [Submit; Settle o] = Some c' /\
    formData (ui c') = formData (ui c) /\
    in_flight c' = 0 /\
    if RegExp.exec Contact.emailRegex (email (formData (ui c))) then
      phase_of (ui c') = submitted /\
      Contact.console w' =
      Contact.Log (str "Contact form submission:")
        (VString (email (formData (ui c))))
        (match message (formData (ui c)) with
         | [] => VString (str "No message provided")
         | _ :: _ => VString (message (formData (ui c)))
         end)
        (Contact.clock w) :: Contact.console w
    else
      phase_of (ui c') = failed /\
      error (ui c') = generic_error /\
      w' = w.
Proof.
  intros Hreach Hidle Hvalid (r & Hpost & ->).
  apply reachable_consistent in Hreach. destruct Hreach as (Hn & Hsub & Hdone).
  destruct c as [[[em msg] sub subd err] n].
  cbn in Hn, Hsub, Hdone.
  cbn [ui formData email message] in Hpost, Hvalid |- *.
  unfold idle_like, phase_of, render in Hidle; cbn in Hidle.
  destruct subd; [destruct Hidle; discriminate|].
  destruct sub; [destruct Hidle; discriminate|]. subst n.
  rewrite (@ContactFacts.POST_string_email Number_toString
             (Contact.request_with
                (body_of {| email := em; message := msg |}))
             (body_of {| email := em; message := msg |}) em w
             eq_refl eq_refl) in Hpost.
  change (Get (body_of {| email := em; message := msg |}) (str "message"))
    with (Normal (VString msg)) in Hpost.
  change (run ?c0 [Submit; Settle ?o0])
    with (match step c0 Submit with
          | Some c1 =>
              match step c1 (Settle o0) with
              | Some c2 => Some c2
              | None => None
              end
          | None => None
          end).
  rewrite step_Submit.
  cbn [ui formData email isSubmitted isSubmitting negb andb in_flight].
  rewrite Hvalid.
  destruct em as [|ch em]; [discriminate Hvalid|].
  destruct (RegExp.exec Contact.emailRegex (ch :: em)).
  - injection Hpost as <- <-. eexists. split; [reflexivity|].
    destruct msg; cbn; auto.
  - injection Hpost as <- <-. eexists. split; [reflexivity|].
    cbn. auto.
Qed.

Lemma filled_in_reachable : reachable filled_in.
Proof.
  apply (@run_reachable
           [Change Email (str "test@example.com"); Change Message (str "Hello")]
           {| ui := initial; in_flight := 0 |} filled_in reachable_initial).
  reflexivity.
Qed.

Lemma filled_in_local_reachable : reachable filled_in_local.
Proof.
  apply (@run_reachable
           [Change Email (str "user@localhost"); Change Message (str "Hello")]
           {| ui := initial; in_flight := 0 |} filled_in_local
           reachable_initial).
  reflexivity.
Qed.

(** The theorem on an address both the browser and the endpoint accept, and
    on one the browser accepts and the endpoint rejects. *)
Lemma submit_against_endpoint_witness :
  (reachable filled_in /\
   idle_like (phase_of (ui filled_in)) /\
   email_field_valid (email (formData (ui filled_in))) = true /\
   delivered Contact.example_printer (formData (ui filled_in))
     Contact.example_world (Resolved 200) logged_world /\
   exists c',
     run filled_in [Submit; Settle (Resolved 200)] = Some c' /\
     formData (ui c') = formData (ui filled_in) /\
     in_flight c' = 0 /\
     if RegExp.exec Contact.emailRegex (email (formData (ui filled_in))) then
       phase_of (ui c') = submitted /\
       Contact.console logged_world =
       Contact.Log (str "Contact form submission:")
         (VString (email (formData (ui filled_in))))
         (match message (formData (ui filled_in)) with
          | [] => VString (str "No message provided")
          | _ :: _ => VString (message (formData (ui filled_in)))
          end)
         (Contact.clock Contact.example_world)
         :: Contact.console Contact.example_world
     else
       phase_of (ui c') = failed /\
       error (ui c') = generic_error /\
       logged_world = Contact.example_world) /\
  (reachable filled_in_local /\
   idle_like (phase_of (ui filled_in_local)) /\
   email_field_valid (email (formData (ui filled_in_local))) = true /\
   delivered Contact.example_printer (formData (ui filled_in_local))
     Contact.example_world (Resolved 400) Contact.example_world /\
   exists c',
     run filled_in_local [Submit; Settle (Resolved 400)] = Some c' /\
     formData (ui c') = formData (ui filled_in_local) /\
     in_flight c' = 0 /\
     if RegExp.exec Contact.emailRegex
          (email (formData (ui filled_in_local))) then
       phase_of (ui c') = submitted /\
       Contact.console Contact.example_world =
       Contact.Log (str "Contact form submission:")
         (VString (email (formData (ui filled_in_local))))
         (match message (formData (ui filled_in_local)) with
          | [] => VString (str "No message provided")
          | _ :: _ => VString (message (formData (ui filled_in_local)))
          end)
         (Contact.clock Contact.example_world)
         :: Contact.console Contact.example_world
     else
       phase_of (ui c') = failed /\
       error (ui c') = generic_error /\
       Contact.example_world = Contact.example_world) /\
  RegExp.exec Contact.emailRegex (email (formData (ui filled_in))) = true /\
  RegExp.exec Contact.emailRegex (email (formData (ui filled_in_local))) =
    false.
Proof.
  assert (Hdelivered :
            delivered Contact.example_printer (formData (ui filled_in))
              Contact.example_world (Resolved 200) logged_world).
  { eexists. split; reflexivity. }
  assert (Hrejected :
            delivered Contact.example_printer (formData (ui filled_in_local))
              Contact.example_world (Resolved 400) Contact.example_world).
  { eexists. split; reflexivity. }
  split.
  { split; [exact filled_in_reachable|].
    split; [left; reflexivity|]. split; [reflexivity|].
    split; [exact Hdelivered|].
    exact (@submit_against_endpoint Contact.example_printer filled_in
             Contact.example_world (Resolved 200) logged_world
             filled_in_reachable (or_introl eq_refl) eq_refl Hdelivered). }
  split.
  { split; [exact filled_in_local_reachable|].
    split; [left; reflexivity|]. split; [reflexivity|].
    split; [exact Hrejected|].
    exact (@submit_against_endpoint Contact.example_printer filled_in_local
             Contact.example_world (Resolved 400) Contact.example_world
             filled_in_local_reachable (or_introl eq_refl) eq_refl
             Hrejected). }
  split; reflexivity.
Defined.

End SubmissionFacts.

(* ===================================================================== *)
(** * The hero carousel's properties                                       *)
(* ===================================================================== *)

Module HeroCarouselFacts.
Import JS HeroCarousel.

Lemma services_length : List.length services = 9.
Proof. reflexivity. Qed.

Lemma step_in_range c e c' :
  step c e = Some c' ->
  currentIndex (ui c) < List.length services ->
  currentIndex (ui c') < List.length services.
Proof.
  rewrite services_length. destruct c as [[i p] n].
  destruct e as [|index|]; cbn [step ui isPlaying timeouts].
  - destruct p; [|discriminate]. intros H _. injection H as <-.
    cbn [ui advance currentIndex]. rewrite services_length.
    apply Nat.mod_upper_bound. discriminate.
  - rewrite services_length. destruct (index <? 9) eqn:Hlt; [|discriminate].
    intros H _. injection H as <-. apply Nat.ltb_lt. exact Hlt.
  - destruct n; [discriminate|]. intros H Hi. injection H as <-. exact Hi.
Qed.

(** X11. In every reachable configuration the index is below the number of
    services, so [services[currentIndex]], whose fields the component
    renders, is never [undefined]. *)
Theorem current_service_is_defined c :
  reachable c ->
  currentIndex (ui c) < List.length services /\
  exists service, currentService (ui c) = Some service.
Proof.
  intros Hreach.
  assert (Hrange : currentIndex (ui c) < List.length services).
  { induction Hreach as [|c e c' _ IH Hstep].
    - rewrite services_length. cbn. lia.
    - exact (@step_in_range c e c' Hstep IH). }
  split; [exact Hrange|]. unfold currentService.
  destruct (nth_error services (currentIndex (ui c))) as [service|] eqn:Hnth.
  - exists service. reflexivity.
  - apply nth_error_None in Hnth. lia.
Qed.

Lemma run_ticks n :
  forall i t,
    i < List.length services ->
    run {| ui := {| currentIndex := i; isPlaying := true |}; timeouts := t |}
      (repeat Tick n) =
    Some {| ui := {| currentIndex := (i + n) mod List.length services;
                     isPlaying := true |};
            timeouts := t |}.
Proof.
  induction n as [|n IH]; intros i t Hi.
  - rewrite Nat.add_0_r, Nat.mod_small by exact Hi. reflexivity.
  - change (repeat Tick (S n)) with (Tick :: repeat Tick n).
    change (run ?c (Tick :: ?es))
      with (match step c Tick with Some c' => run c' es | None => None end).
    change (step {| ui := {| currentIndex := i; isPlaying := true |};
                    timeouts := t |} Tick)
      with (Some {| ui := {| currentIndex := (i + 1) mod List.length services;
                             isPlaying := true |};
                    timeouts := t |}).
    cbv beta iota.
    rewrite IH
      by (apply Nat.mod_upper_bound; rewrite services_length; discriminate).
    rewrite Nat.Div0.add_mod_idemp_l.
    replace (i + 1 + n) with (i + S n) by lia. reflexivity.
Qed.

(** X12. While playing, [n] ticks move the carousel [n] slides on, modulo
    the number of services, and change nothing else; as many ticks as there
    are services bring back the very same configuration. *)
Theorem auto_advance_cycles c n :
  isPlaying (ui c) = true ->
  currentIndex (ui c) < List.length services ->
  exists c',
    run c (repeat Tick n) = Some c' /\
    currentIndex (ui c') = (currentIndex (ui c) + n) mod List.length services /\
    isPlaying (ui c') = true /\
    timeouts c' = timeouts c /\
    (n = List.length services -> c' = c).
Proof.
  destruct c as [[i p] t]. cbn [ui isPlaying currentIndex timeouts].
  intros -> Hi. rewrite run_ticks by exact Hi. eexists. split; [reflexivity|].
  cbn [ui isPlaying currentIndex timeouts].
  repeat split. intros ->. do 2 f_equal.
  replace (i + List.length services) with (i + 1 * List.length services) by lia.
  rewrite Nat.Div0.mod_add. apply Nat.mod_small. exact Hi.
Qed.

Lemma step_paused_has_timer c e c' :
  step c e = Some c' ->
  (isPlaying (ui c) = false -> 0 < timeouts c) ->
  isPlaying (ui c') = false -> 0 < timeouts c'.
Proof.
  destruct c as [[i p] n].
  destruct e as [|index|]; cbn [step ui isPlaying timeouts].
  - destruct p; [|discriminate]. intros H _. injection H as <-.
    cbn. discriminate.
  - destruct (index <? List.length services); [|discriminate].
    intros H _ _. injection H as <-. cbn. lia.
  - destruct n; [discriminate|]. intros H _. injection H as <-.
    cbn. discriminate.
Qed.

(** X13. The carousel never stays paused: in every reachable configuration
    that is paused, the interval does not fire, a resume timer is pending,
    and its firing resumes play on the slide shown. *)
Theorem never_stuck_paused c :
  reachable c ->
  isPlaying (ui c) = false ->
  step c Tick = None /\
  exists n,
    timeouts c = S n /\
    step c Timeout = Some {| ui := resume (ui c); timeouts := n |} /\
    isPlaying (resume (ui c)) = true /\
    currentIndex (resume (ui c)) = currentIndex (ui c).
Proof.
  intros Hreach Hpaused.
  assert (Htimer : isPlaying (ui c) = false -> 0 < timeouts c).
  { clear Hpaused. induction Hreach as [|c e c' _ IH Hstep].
    - discriminate.
    - exact (@step_paused_has_timer c e c' Hstep IH). }
  specialize (Htimer Hpaused).
  destruct c as [[i p] n]; cbn in *. subst p.
  split; [reflexivity|]. destruct n as [|n]; [lia|].
  exists n. repeat split.
Qed.

(** X14. No timer is ever cancelled: along every session, the timers
    pending at the end and those that fired are the timers pending at the
    start and one per click. *)
Theorem timers_are_never_cancelled es :
  forall c c',
    run c es = Some c' ->
    timeouts c' + count_timeouts es = timeouts c + count_clicks es.
Proof.
  induction es as [|e es IH]; intros c c' Hrun.
  - injection Hrun as <-. reflexivity.
  - cbn [run] in Hrun. destruct (step c e) as [c1|] eqn:Hstep; [|discriminate].
    specialize (IH c1 c' Hrun).
    destruct c as [[i p] n].
    destruct e as [|index|]; cbn [step ui isPlaying timeouts] in Hstep.
    + destruct p; [|discriminate]. injection Hstep as <-. exact IH.
    + destruct (index <? List.length services); [|discriminate].
      injection Hstep as <-. cbn in *. lia.
    + destruct n; [discriminate|]. injection Hstep as <-. cbn in *. lia.
Qed.

(** X15. A click does not reset the pause of an earlier one: after two
    clicks, the first timer to fire resumes play on the slide of the second
    click while the other timer is still pending, and the interval can
    fire. *)
Theorem earlier_timer_resumes_after_later_click c i j :
  i < List.length services ->
  j < List.length services ->
  exists c',
    run c [Click i; Click j; Timeout] = Some c' /\
    currentIndex (ui c') = j /\
    isPlaying (ui c') = true /\
    timeouts c' = S (timeouts c) /\
    step c' Tick =
      Some {| ui := advance (ui c'); timeouts := timeouts c' |}.
Proof.
  intros Hi Hj. apply Nat.ltb_lt in Hi, Hj.
  cbn [run step]. rewrite Hi. cbn [run step]. rewrite Hj.
  eexists. split; [reflexivity|]. repeat split.
Qed.

Lemma carousel_run_reachable es :
  forall c c', reachable c -> run c es = Some c' -> reachable c'.
Proof.
  induction es as [|e es IH]; cbn [run]; intros c c' Hc Hrun.
  - injection Hrun as <-. exact Hc.
  - destruct (step c e) as [c1|] eqn:Hstep; [|discriminate].
    apply (IH c1 c'); [|exact Hrun].
    exact (@reachable_step c e c1 Hc Hstep).
Qed.

Lemma paused_on_fourth_reachable : reachable paused_on_fourth.
Proof.
  apply (@carousel_run_reachable [Click 3] {| ui := initial; timeouts := 0 |}
           paused_on_fourth reachable_initial).
  reflexivity.
Qed.

Lemma current_service_is_defined_witness :
  reachable paused_on_fourth /\
  currentIndex (ui paused_on_fourth) < List.length services /\
  exists service, currentService (ui paused_on_fourth) = Some service.
Proof.
  split; [exact paused_on_fourth_reachable|].
  exact (@current_service_is_defined paused_on_fourth
           paused_on_fourth_reachable).
Defined.

Lemma auto_advance_cycles_witness :
  isPlaying initial = true /\
  currentIndex initial < List.length services /\
  exists c',
    run {| ui := initial; timeouts := 0 |} (repeat Tick 9) = Some c' /\
    currentIndex (ui c') = (currentIndex initial + 9) mod List.length services /\
    isPlaying (ui c') = true /\
    timeouts c' = 0 /\
    (9 = List.length services -> c' = {| ui := initial; timeouts := 0 |}).
Proof.
  split; [reflexivity|].
  assert (Hrange : currentIndex initial < List.length services).
  { rewrite services_length. cbn. lia. }
  split; [exact Hrange|].
  exact (@auto_advance_cycles {| ui := initial; timeouts := 0 |} 9
           eq_refl Hrange).
Defined.

Lemma never_stuck_paused_witness :
  reachable paused_on_fourth /\
  isPlaying (ui paused_on_fourth) = false /\
  step paused_on_fourth Tick = None /\
  exists n,
    timeouts paused_on_fourth = S n /\
    step paused_on_fourth Timeout =
      Some {| ui := resume (ui paused_on_fourth); timeouts := n |} /\
    isPlaying (resume (ui paused_on_fourth)) = true /\
    currentIndex (resume (ui paused_on_fourth)) =
      currentIndex (ui paused_on_fourth).
Proof.
  split; [exact paused_on_fourth_reachable|]. split; [reflexivity|].
  exact (@never_stuck_paused paused_on_fourth paused_on_fourth_reachable
           eq_refl).
Defined.

Lemma timers_are_never_cancelled_witness :
  run {| ui := initial; timeouts := 0 |} [Tick; Click 3; Click 5; Timeout] =
    Some {| ui := {| currentIndex := 5; isPlaying := true |}; timeouts := 1 |} /\
  1 + count_timeouts [Tick; Click 3; Click 5; Timeout] =
  0 + count_clicks [Tick; Click 3; Click 5; Timeout].
Proof.
  split; [reflexivity|].
  apply (@timers_are_never_cancelled [Tick; Click 3; Click 5; Timeout]
           {| ui := initial; timeouts := 0 |}
           {| ui := {| currentIndex := 5; isPlaying := true |};
              timeouts := 1 |}).
  reflexivity.
Defined.

Lemma earlier_timer_resumes_after_later_click_witness :
  3 < List.length services /\
  5 < List.length services /\
  exists c',
    run {| ui := initial; timeouts := 0 |} [Click 3; Click 5; Timeout] =
      Some c' /\
    currentIndex (ui c') = 5 /\
    isPlaying (ui c') = true /\
    timeouts c' = 1 /\
    step c' Tick = Some {| ui := advance (ui c'); timeouts := timeouts c' |}.
Proof.
  assert (H3 : 3 < List.length services) by (rewrite services_length; lia).
  assert (H5 : 5 < List.length services) by (rewrite services_length; lia).
  split; [exact H3|]. split; [exact H5|].
  exact (@earlier_timer_resumes_after_later_click
           {| ui := initial; timeouts := 0 |} 3 5 H3 H5).
Defined.

End HeroCarouselFacts.

(* ===================================================================== *)
(** * The lint globals' properties                                         *)
(* ===================================================================== *)

Module EslintConfigFacts.
Import JS EslintConfig.

Lemma string_eqb_eq a : forall b, string_eqb a b = true <-> a = b.
Proof.
  induction a as [|x a IH]; destruct b as [|y b]; cbn [string_eqb];
    try (split; [discriminate|discriminate]); [split; reflexivity|].
  rewrite andb_true_iff, IH. unfold code_unit_eqb. rewrite N.eqb_eq.
  split; [intros [-> ->]; reflexivity | intros H; injection H; auto].
Qed.

Lemma string_eqb_refl a : string_eqb a a = true.
Proof. apply string_eqb_eq. reflexivity. Qed.

Lemma string_eqb_neq a b : a <> b -> string_eqb a b = false.
Proof.
  intros H. destruct (string_eqb a b) eqn:E; [|reflexivity].
  apply string_eqb_eq in E. contradiction.
Qed.

(** ** Reading what was set *)

Lemma own_property_set o key v key' :
  own_property (set_property o key v) key' =
  if string_eqb key key' then Some v else own_property o key'.
Proof.
  induction o as [|[k x] o IH]; cbn [set_property own_property].
  - reflexivity.
  - destruct (string_eqb k key) eqn:Hk; cbn [own_property].
    + apply string_eqb_eq in Hk. subst k.
      destruct (string_eqb key key'); reflexivity.
    + rewrite IH. destruct (string_eqb k key') eqn:Hk'; [|reflexivity].
      destruct (string_eqb key key') eqn:Hkey; [|reflexivity].
      apply string_eqb_eq in Hk', Hkey. subst key' k.
      rewrite string_eqb_refl in Hk. discriminate.
Qed.

Lemma own_property_fold es key :
  forall o,
    own_property
      (fold_left (fun o kv => set_property o (fst kv) (snd kv)) es o) key =
    match last_value (fun k => string_eqb k key) es with
    | Some v => Some v
    | None => own_property o key
    end.
Proof.
  induction es as [|[k v] es IH]; intros o; cbn [fold_left last_value];
    [reflexivity|].
  rewrite IH. cbn [fst snd].
  destruct (last_value (fun k0 => string_eqb k0 key) es); [reflexivity|].
  rewrite own_property_set. destruct (string_eqb k key); reflexivity.
Qed.

Lemma last_value_map (f : js_string -> js_string) p es :
  last_value p (map (fun kv => (f (fst kv), snd kv)) es) =
  last_value (fun k => p (f k)) es.
Proof.
  induction es as [|[k v] es IH]; cbn [map last_value fst snd]; [reflexivity|].
  rewrite IH. reflexivity.
Qed.

(** X16. Looking a name up in [trimmedGlobals] gives the value of the last
    browser global whose trimmed name it is: of two names that trim to the
    same, the later one wins; a name that no browser global trims to is
    absent. *)
Theorem trimmedGlobals_lookup browser key :
  own_property (trimmedGlobals browser) key =
  last_value (fun k => string_eqb (trim k) key) browser.
Proof.
  unfold trimmedGlobals, fromEntries, entries.
  rewrite own_property_fold, last_value_map.
  destruct (last_value _ browser); reflexivity.
Qed.

(** ** Keys *)

Lemma set_property_keys o key v k :
  In k (map fst (set_property o key v)) <-> k = key \/ In k (map fst o).
Proof.
  induction o as [|[k0 x] o IH]; cbn [set_property map fst In].
  - intuition congruence.
  - destruct (string_eqb k0 key) eqn:Hk; cbn [map fst In].
    + apply string_eqb_eq in Hk. subst k0. intuition congruence.
    + rewrite IH. intuition congruence.
Qed.

Lemma set_property_NoDup o key v :
  NoDup (map fst o) -> NoDup (map fst (set_property o key v)).
Proof.
  induction o as [|[k0 x] o IH]; cbn [set_property map fst]; intros Hnd.
  - constructor; [intros []|constructor].
  - inversion Hnd as [|? ? Hnotin Hnd']; subst.
    destruct (string_eqb k0 key) eqn:Hk; cbn [map fst].
    + constructor; assumption.
    + constructor; [|apply IH; assumption].
      rewrite set_property_keys. intros [->|Hin]; [|contradiction].
      rewrite string_eqb_refl in Hk. discriminate.
Qed.

Lemma fold_keys es :
  forall o k,
    In k (map fst (fold_left (fun o kv => set_property o (fst kv) (snd kv)) es o))
    <-> In k (map fst es) \/ In k (map fst o).
Proof.
  induction es as [|[k0 v] es IH]; intros o k; cbn [fold_left map fst In].
  - intuition.
  - rewrite IH, set_property_keys. intuition congruence.
Qed.

Lemma fold_NoDup es :
  forall o,
    NoDup (map fst o) ->
    NoDup (map fst (fold_left (fun o kv => set_property o (fst kv) (snd kv)) es o)).
Proof.
  induction es as [|[k v] es IH]; intros o Hnd; cbn [fold_left]; [exact Hnd|].
  apply IH, set_property_NoDup, Hnd.
Qed.

(** ** Trimming *)

Lemma drop_while_head p s c t : drop_while p s = c :: t -> p c = false.
Proof.
  induction s as [|x s IH]; cbn [drop_while]; [discriminate|].
  destruct (p x) eqn:Hx; [exact IH|]. intros H. injection H as <- _. exact Hx.
Qed.

Lemma drop_while_snoc p s c :
  p c = false -> drop_while p (s ++ [c]) = drop_while p s ++ [c].
Proof.
  intros Hc. induction s as [|x s IH]; cbn [drop_while app].
  - rewrite Hc. reflexivity.
  - destruct (p x); [exact IH | reflexivity].
Qed.

Lemma drop_while_idem p s : drop_while p (drop_while p s) = drop_while p s.
Proof.
  induction s as [|x s IH]; cbn [drop_while]; [reflexivity|].
  destruct (p x) eqn:Hx; [exact IH|]. cbn [drop_while]. rewrite Hx. reflexivity.
Qed.

Lemma trimEnd_cons c t :
  RegExp.is_white_space c = false ->
  trimEnd (c :: t) = c :: trimEnd t.
Proof.
  intros Hc. unfold trimEnd. cbn [rev].
  rewrite drop_while_snoc by exact Hc. rewrite rev_app_distr. reflexivity.
Qed.

Lemma trimStart_fixed c t :
  RegExp.is_white_space c = false -> trimStart (c :: t) = c :: t.
Proof. intros Hc. unfold trimStart. cbn [drop_while]. rewrite Hc. reflexivity. Qed.

Lemma trimEnd_idem s : trimEnd (trimEnd s) = trimEnd s.
Proof.
  unfold trimEnd. rewrite rev_involutive, drop_while_idem. reflexivity.
Qed.

Lemma trim_idem s : trim (trim s) = trim s.
Proof.
  unfold trim. destruct (trimStart s) as [|c t] eqn:Hs.
  - reflexivity.
  - assert (Hc : RegExp.is_white_space c = false)
      by (eapply drop_while_head; exact Hs).
    rewrite (@trimEnd_cons c t Hc), (@trimStart_fixed c (trimEnd t) Hc),
      <- (@trimEnd_cons c t Hc).
    apply trimEnd_idem.
Qed.

Lemma trim_first s c t :
  trim s = c :: t -> RegExp.is_white_space c = false.
Proof.
  unfold trim. destruct (trimStart s) as [|c0 t0] eqn:Hs; [discriminate|].
  assert (Hc : RegExp.is_white_space c0 = false)
    by (eapply drop_while_head; exact Hs).
  rewrite (@trimEnd_cons c0 t0 Hc). intros H. injection H as <- _. exact Hc.
Qed.

Lemma trimEnd_last s c t :
  trimEnd s = t ++ [c] -> RegExp.is_white_space c = false.
Proof.
  unfold trimEnd. intros H.
  apply (f_equal (@rev _)) in H. rewrite rev_involutive, rev_app_distr in H.
  cbn in H. eapply drop_while_head. exact H.
Qed.

Lemma trim_last s c t :
  trim s = t ++ [c] -> RegExp.is_white_space c = false.
Proof. unfold trim. apply trimEnd_last. Qed.

Lemma drop_while_split p s :
  exists a, s = a ++ drop_while p s /\ forallb p a = true.
Proof.
  induction s as [|x s (a & Hs & Ha)]; cbn [drop_while].
  - exists []. split; reflexivity.
  - destruct (p x) eqn:Hx.
    + exists (x :: a). cbn [app forallb]. rewrite Hx, Ha, <- Hs.
      split; reflexivity.
    + exists []. split; reflexivity.
Qed.

Lemma forallb_rev p (l : js_string) :
  forallb p l = true -> forallb p (rev l) = true.
Proof.
  rewrite !forallb_forall. intros H x Hin. apply H, in_rev, Hin.
Qed.

Lemma trim_split s :
  exists before after,
    s = before ++ trim s ++ after /\
    forallb RegExp.is_white_space before = true /\
    forallb RegExp.is_white_space after = true.
Proof.
  unfold trim, trimStart.
  destruct (drop_while_split RegExp.is_white_space s) as (a & Hs & Ha).
  set (u := drop_while RegExp.is_white_space s) in *.
  destruct (drop_while_split RegExp.is_white_space (rev u)) as (b & Hu & Hb).
  exists a, (rev b). split; [|split; [exact Ha | apply forallb_rev, Hb]].
  rewrite Hs at 1. f_equal. unfold trimEnd.
  rewrite <- rev_app_distr, <- Hu, rev_involutive. reflexivity.
Qed.

(** X17. Every key of [trimmedGlobals] is trimmed: it is its own trim, it
    neither starts nor ends with a white-space character, and it is a
    browser global's name with nothing but white space removed at the two
    ends. *)
Theorem trimmedGlobals_keys_are_trimmed browser key v :
  In (key, v) (trimmedGlobals browser) ->
  trim key = key /\
  (exists key0 v0 before after,
      In (key0, v0) browser /\
      key0 = before ++ key ++ after /\
      forallb RegExp.is_white_space before = true /\
      forallb RegExp.is_white_space after = true) /\
  (forall c t, key = c :: t -> RegExp.is_white_space c = false) /\
  (forall c t, key = t ++ [c] -> RegExp.is_white_space c = false).
Proof.
  intros Hin.
  assert (Hkey : In key (map fst (trimmedGlobals browser)))
    by (apply in_map_iff; exists (key, v); auto).
  unfold trimmedGlobals, fromEntries, entries in Hkey.
  rewrite fold_keys in Hkey. destruct Hkey as [Hkey|[]].
  rewrite map_map in Hkey. cbn [fst] in Hkey.
  apply in_map_iff in Hkey as ([key0 v0] & <- & Hin0). cbn [fst].
  split; [apply trim_idem|]. split.
  { destruct (trim_split key0) as (before & after & Hsplit & Hb & Ha).
    exists key0, v0, before, after. auto. }
  split; intros c t H; [eapply trim_first | eapply trim_last]; exact H.
Qed.

(** X18. No key occurs twice in [trimmedGlobals], not even when two browser
    globals trim to the same name. *)
Theorem trimmedGlobals_keys_unique browser :
  NoDup (map fst (trimmedGlobals browser)).
Proof. apply fold_NoDup. constructor. Qed.

(** ** Clean input *)

Lemma set_property_fresh o key v :
  ~ In key (map fst o) -> set_property o key v = o ++ [(key, v)].
Proof.
  induction o as [|[k x] o IH]; cbn [set_property map fst In app]; intros Hnot.
  - reflexivity.
  - rewrite string_eqb_neq by (intros ->; apply Hnot; left; reflexivity).
    rewrite IH by (intros H; apply Hnot; right; exact H). reflexivity.
Qed.

Lemma fold_fresh es :
  forall o,
    NoDup (map fst o ++ map fst es) ->
    fold_left (fun o kv => set_property o (fst kv) (snd kv)) es o = o ++ es.
Proof.
  induction es as [|[k v] es IH]; intros o Hnd; cbn [fold_left fst snd].
  - rewrite app_nil_r. reflexivity.
  - cbn [map fst] in Hnd.
    rewrite set_property_fresh.
    + rewrite IH.
      * rewrite <- app_assoc. reflexivity.
      * rewrite map_app. cbn [map fst]. rewrite <- app_assoc. exact Hnd.
    + intros Hin. apply NoDup_remove_2 in Hnd. apply Hnd.
      apply in_or_app. left. exact Hin.
Qed.

(** X19. On browser globals whose names are distinct and already trimmed,
    the workaround changes nothing: same entries, same order. *)
Theorem trimmedGlobals_clean_unchanged browser :
  NoDup (map fst browser) ->
  (forall key v, In (key, v) browser -> trim key = key) ->
  trimmedGlobals browser = browser.
Proof.
  intros Hnd Hclean. unfold trimmedGlobals, fromEntries, entries.
  assert (Hmap : map (fun kv => (trim (fst kv), snd kv)) browser = browser).
  { clear Hnd. induction browser as [|[k v] b IH]; [reflexivity|].
    cbn [map fst snd]. rewrite (Hclean k v) by (left; reflexivity).
    rewrite IH; [reflexivity|]. intros key x Hin. apply (Hclean key x).
    right. exact Hin. }
  rewrite Hmap. apply (@fold_fresh browser []). exact Hnd.
Qed.

Lemma last_value_own_property o key :
  NoDup (map fst o) ->
  last_value (fun k => string_eqb k key) o = own_property o key.
Proof.
  induction o as [|[k v] o IH]; cbn [last_value own_property map fst];
    [reflexivity|].
  intros Hnd. inversion Hnd as [|? ? Hnotin Hnd']; subst.
  rewrite (IH Hnd'). destruct (string_eqb k key) eqn:Hk.
  - apply string_eqb_eq in Hk. subst k.
    destruct (own_property o key) as [x|] eqn:Hown; [|reflexivity].
    exfalso. apply Hnotin. clear -Hown.
    induction o as [|[k v0] o IH]; [discriminate|].
    cbn [own_property] in Hown. cbn [map fst In].
    destruct (string_eqb k key) eqn:Hk.
    + left. apply string_eqb_eq. exact Hk.
    + right. apply IH. exact Hown.
  - destruct (own_property o key); reflexivity.
Qed.

(** X20. In the globals handed to the linter, a global of Node takes
    precedence over a browser global of the same name; every other name has
    its value from [trimmedGlobals]. *)
Theorem node_globals_take_precedence browser node key :
  NoDup (map fst node) ->
  own_property (languageOptions_globals browser node) key =
  match own_property node key with
  | Some v => Some v
  | None => own_property (trimmedGlobals browser) key
  end.
Proof.
  intros Hnd. unfold languageOptions_globals, fromEntries, entries.
  rewrite fold_left_app, own_property_fold.
  rewrite (@last_value_own_property node key Hnd).
  destruct (own_property node key); [reflexivity|].
  rewrite (@fold_fresh (trimmedGlobals browser) []); [reflexivity|].
  unfold trimmedGlobals, fromEntries. apply fold_NoDup. constructor.
Qed.

(** ** On examples *)

(** The name with the trailing space is found under its trimmed form. *)
Lemma trimmedGlobals_keys_are_trimmed_witness :
  In (str "AudioWorkletGlobalScope", VBool false)
    (trimmedGlobals example_browser) /\
  trim (str "AudioWorkletGlobalScope") = str "AudioWorkletGlobalScope" /\
  (exists key0 v0 before after,
      In (key0, v0) example_browser /\
      key0 = before ++ str "AudioWorkletGlobalScope" ++ after /\
      forallb RegExp.is_white_space before = true /\
      forallb RegExp.is_white_space after = true) /\
  (forall c t,
      str "AudioWorkletGlobalScope" = c :: t ->
      RegExp.is_white_space c = false) /\
  (forall c t,
      str "AudioWorkletGlobalScope" = t ++ [c] ->
      RegExp.is_white_space c = false).
Proof.
  assert (Hin : In (str "AudioWorkletGlobalScope", VBool false)
                  (trimmedGlobals example_browser)).
  { right. left. reflexivity. }
  split; [exact Hin|].
  exact (@trimmedGlobals_keys_are_trimmed example_browser
           (str "AudioWorkletGlobalScope") (VBool false) Hin).
Defined.

Lemma clean_browser_distinct : NoDup (map fst clean_browser).
Proof.
  repeat constructor; cbn; intros H;
    repeat (destruct H as [H|H]; [discriminate H|]); exact H.
Qed.

Lemma clean_browser_trimmed key v :
  In (key, v) clean_browser -> trim key = key.
Proof.
  cbn. intros H.
  repeat (destruct H as [H|H]; [injection H as <- _; reflexivity|]).
  destruct H.
Qed.

Lemma trimmedGlobals_clean_unchanged_witness :
  NoDup (map fst clean_browser) /\
  (forall key v, In (key, v) clean_browser -> trim key = key) /\
  trimmedGlobals clean_browser = clean_browser.
Proof.
  split; [exact clean_browser_distinct|].
  split; [exact clean_browser_trimmed|].
  exact (@trimmedGlobals_clean_unchanged clean_browser
           clean_browser_distinct clean_browser_trimmed).
Defined.

Lemma example_node_distinct : NoDup (map fst example_node).
Proof.
  repeat constructor; cbn; intros H;
    repeat (destruct H as [H|H]; [discriminate H|]); exact H.
Qed.

(** [console] is a global of both: Node's value is the one the linter
    gets. *)
Lemma node_globals_take_precedence_witness :
  NoDup (map fst example_node) /\
  own_property (languageOptions_globals example_browser example_node)
    (str "console") =
  match own_property example_node (str "console") with
  | Some v => Some v
  | None => own_property (trimmedGlobals example_browser) (str "console")
  end.
Proof.
  split; [exact example_node_distinct|].
  exact (@node_globals_take_precedence example_browser example_node
           (str "console") example_node_distinct).
Defined.

End EslintConfigFacts.
